(** * Roll-DPoS consensus core of iotex-core: a shallow embedding

    The development follows the Go sources:
    - package [rolldpos] (events, the endorsement record and its codec, the
      consensus state machine [cFSM], seed aggregation);
    - package [config] (the [RollDPoS] options and [ValidateRollDPoS]; the
      root configuration, its validation functions and [New]);
    - the tool [indexbuilder] (the loops of [main] over the ranges of blocks).

    Conventions.  A [uint64] is a [Z] whose wrap-around is written out where
    the code does arithmetic on it; a byte is a [Byte.byte]; a Go fixed-size
    array [[n]byte] is a [vec byte n]; a slice is a [list]; a Go map is a
    [gmap]; a [time.Time] is a [Z] (nanoseconds) and a [time.Duration] a [Z].
    A Go function returning [(T, error)] returns a pair whose second
    component is an [option error]; a function that may panic returns an
    [option], [None] being the panic. *)

From Stdlib Require Import ZArith Lia.
From Stdlib.Strings Require Import Byte.
From stdpp Require Import base numbers option list strings vector gmap.

Local Open Scope Z_scope.

(** ** Bytes, arrays and slices *)

Abbreviation byte := Byte.byte.

#[global] Instance byte_eq_dec : EqDecision byte := Byte.byte_eq_dec.

#[global] Program Instance byte_countable : Countable byte :=
  inj_countable Byte.to_N Byte.of_N _.
Next Obligation. intros x. apply Byte.of_to_N. Qed.

(** Go's conversion [byte(v)] of an unsigned integer: the low eight bits. *)
Definition to_byte (v : Z) : byte :=
  default Byte.x00 (Byte.of_N (Z.to_N (v `mod` 256))).

Definition byte_val (b : byte) : Z := Z.of_N (Byte.to_N b).

(** [make([]byte, n)]: a zeroed slice. *)
Definition make (n : nat) : list byte := replicate n Byte.x00.

(** The builtin [copy(dst, src)] on slices: the first
    [min (len dst) (len src)] elements of [dst] are overwritten. *)
Definition copy (dst src : list byte) : list byte :=
  take (length dst) src ++ drop (length src) dst.

(** [copy(a[:], src)] where [a] is a fixed-size array. *)
Fixpoint vcopy {n : nat} (dst : vec byte n) (src : list byte) : vec byte n :=
  match dst in Vector.t _ m return vec byte m with
  | [#] => [#]
  | d ::: dst' =>
      match src with
      | [] => d ::: dst'
      | s :: src' => s ::: vcopy dst' src'
      end
  end.

(** Copying all the elements of an array of the same size gives that array. *)
Lemma vcopy_vec_to_list {n : nat} (dst v : vec byte n) : vcopy dst (vec_to_list v) = v.
Proof.
  induction v as [|x n v IH]; inv_vec dst; [done|].
  intros d dst. simpl. by rewrite IH.
Qed.

(** ** [pkg/enc]: the machine endianness *)

(** Modelled from the spec: [enc.MachineEndian] is not among the sources; the
    canonical byte stream is little-endian, so [MachineEndian.PutUint64] is
    [binary.LittleEndian.PutUint64], which writes the eight bytes of [v],
    least significant first, and whose bounds check [_ = b[7]] panics on a
    slice shorter than eight bytes. *)
Definition PutUint64 (b : list byte) (v : Z) : option (list byte) :=
  if decide (length b < 8)%nat then None
  else
    let b := <[0%nat := to_byte v]> b in
    let b := <[1%nat := to_byte (Z.shiftr v 8)]> b in
    let b := <[2%nat := to_byte (Z.shiftr v 16)]> b in
    let b := <[3%nat := to_byte (Z.shiftr v 24)]> b in
    let b := <[4%nat := to_byte (Z.shiftr v 32)]> b in
    let b := <[5%nat := to_byte (Z.shiftr v 40)]> b in
    let b := <[6%nat := to_byte (Z.shiftr v 48)]> b in
    let b := <[7%nat := to_byte (Z.shiftr v 56)]> b in
    Some b.

(** The little-endian representation the specification speaks of: [n] bytes,
    least significant first. *)
Fixpoint le_bytes (n : nat) (v : Z) : list byte :=
  match n with
  | O => []
  | S n' => to_byte (v `mod` 256) :: le_bytes n' (v `div` 256)
  end.

(** The number a little-endian byte sequence denotes. *)
Fixpoint le_value (bs : list byte) : Z :=
  match bs with
  | [] => 0
  | b :: bs' => byte_val b + 256 * le_value bs'
  end.

(** ** Errors ([github.com/pkg/errors]) *)

Inductive error :=
| errors_New (msg : string)
| errors_Wrap (e : error) (msg : string).

Fixpoint errors_Cause (e : error) : error :=
  match e with
  | errors_New _ => e
  | errors_Wrap e' _ => errors_Cause e'
  end.

#[global] Instance error_eq_dec : EqDecision error.
Proof. solve_decision. Defined.

(** A call into a collaborator either yields a value or fails. *)
Inductive result (A : Type) :=
| Ok (a : A)
| Err (e : error).
Arguments Ok {A} a.
Arguments Err {A} e.

(** ** [config]: the consensus options *)

Definition Duration := Z.
Definition Time := Z.

Definition RollDPoSScheme : string := "ROLLDPOS".
Definition StandaloneScheme : string := "STANDALONE".
Definition NOOPScheme : string := "NOOP".

Record RollDPoS := {
  DelegateInterval : Duration;
  ProposerInterval : Duration;
  UnmatchedEventTTL : Duration;
  UnmatchedEventInterval : Duration;
  RoundStartTTL : Duration;
  AcceptProposeTTL : Duration;
  AcceptProposalEndorseTTL : Duration;
  AcceptCommitEndorseTTL : Duration;
  Delay : Duration;
  NumSubEpochs : Z;
  EventChanSize : Z;
  NumDelegates : Z;
  EnableDummyBlock : bool;
  TimeBasedRotation : bool
}.

Record Consensus := {
  Scheme : string;
  RollDPoS_ : RollDPoS;
  BlockCreationInterval : Duration
}.

(** The root configuration; only the parts the consensus validation reads
    are kept. *)
Record Config := {
  NodeType : string;
  Consensus_ : Consensus
}.

Definition ErrInvalidCfg : error := errors_New "invalid config value".

(** [ValidateRollDPoS]; [None] is Go's [nil] error. *)
Definition ValidateRollDPoS (cfg : Config) : option error :=
  let c := Consensus_ cfg in
  if bool_decide (Scheme c = RollDPoSScheme) && (EventChanSize (RollDPoS_ c) <=? 0) then
    Some (errors_Wrap ErrInvalidCfg "roll-DPoS event chan size should be greater than 0")
  else if bool_decide (Scheme c = RollDPoSScheme) && (NumDelegates (RollDPoS_ c) <=? 0) then
    Some (errors_Wrap ErrInvalidCfg "roll-DPoS event delegate number should be greater than 0")
  else if bool_decide (Scheme c = RollDPoSScheme)
          && EnableDummyBlock (RollDPoS_ c)
          && TimeBasedRotation (RollDPoS_ c) then
    Some (errors_Wrap ErrInvalidCfg
            "roll-DPoS should enable dummy block when doing time based rotation")
  else None.

(** The default consensus options of [config.Default], with the scheme set
    to Roll-DPoS. *)
Definition second : Duration := 1000000000.
Definition millisecond : Duration := 1000000.

Definition DefaultRollDPoS : RollDPoS := {|
  DelegateInterval := 10 * second;
  ProposerInterval := 10 * second;
  UnmatchedEventTTL := 3 * second;
  UnmatchedEventInterval := 100 * millisecond;
  RoundStartTTL := 10 * second;
  AcceptProposeTTL := second;
  AcceptProposalEndorseTTL := second;
  AcceptCommitEndorseTTL := second;
  Delay := 5 * second;
  NumSubEpochs := 1;
  EventChanSize := 10000;
  NumDelegates := 21;
  EnableDummyBlock := true;
  TimeBasedRotation := false
|}.

Definition withRotation (r : RollDPoS) (dummy rotation : bool) : RollDPoS := {|
  DelegateInterval := DelegateInterval r;
  ProposerInterval := ProposerInterval r;
  UnmatchedEventTTL := UnmatchedEventTTL r;
  UnmatchedEventInterval := UnmatchedEventInterval r;
  RoundStartTTL := RoundStartTTL r;
  AcceptProposeTTL := AcceptProposeTTL r;
  AcceptProposalEndorseTTL := AcceptProposalEndorseTTL r;
  AcceptCommitEndorseTTL := AcceptCommitEndorseTTL r;
  Delay := Delay r;
  NumSubEpochs := NumSubEpochs r;
  EventChanSize := EventChanSize r;
  NumDelegates := NumDelegates r;
  EnableDummyBlock := dummy;
  TimeBasedRotation := rotation
|}.

Definition rolldposConfig (r : RollDPoS) : Config := {|
  NodeType := "delegate";
  Consensus_ := {| Scheme := RollDPoSScheme; RollDPoS_ := r;
                   BlockCreationInterval := 10 * second |}
|}.

(** ** [pkg/hash], [pkg/keypair], [iotxaddress]

    These packages are not among the sources.  Hashes and keys are
    fixed-size byte arrays. *)

Abbreviation Hash32B := (vec byte 32).

Definition ec283pubKeyLength : nat := 72.
Definition ec283privKeyLength : nat := 36.

Abbreviation PublicKey := (vec byte ec283pubKeyLength).
Abbreviation PrivateKey := (vec byte ec283privKeyLength).

Definition ZeroHash32B : Hash32B := vreplicate 32 Byte.x00.
(** The key encoding of the maps indexed by block hash. *)
#[global] Program Instance Hash32B_countable : Countable Hash32B | 0 :=
  inj_countable' vec_to_list (vcopy ZeroHash32B) _.
Next Obligation. intros v. apply vcopy_vec_to_list. Qed.

Definition ZeroPublicKey : PublicKey := vreplicate ec283pubKeyLength Byte.x00.
Definition ZeroPrivateKey : PrivateKey := vreplicate ec283privKeyLength Byte.x00.

Definition ErrPublicKey : error := errors_New "invalid public key".

(** Modelled from the spec: [keypair.BytesToPublicKey] is not among the
    sources; it rejects a byte sequence that does not parse as a public key,
    that is, one that has not the length of a key, and otherwise copies it
    into a key. *)
Definition BytesToPublicKey (pubKey : list byte) : PublicKey * option error :=
  if decide (length pubKey ≠ ec283pubKeyLength) then
    (ZeroPublicKey, Some (errors_Wrap ErrPublicKey "Invalid public key length"))
  else (vcopy ZeroPublicKey pubKey, None).

(** [iotxaddress.Address] *)
Record Address := {
  addr_PrivateKey : PrivateKey;
  addr_PublicKey : PublicKey;
  RawAddress : string
}.

(** ** The endorsement record and its wire form *)

Definition endorseProposal : bool := false.
Definition endorseCommit : bool := true.

Record endorse := {
  en_topic : bool;
  en_height : Z;
  en_blkHash : Hash32B;
  en_decision : bool;
  en_endorser : string;
  en_endorserPubkey : PublicKey;
  en_signature : list byte
}.

(** The zero value [var en endorse]. *)
Definition endorse_zero : endorse := {|
  en_topic := false;
  en_height := 0;
  en_blkHash := ZeroHash32B;
  en_decision := false;
  en_endorser := "";
  en_endorserPubkey := ZeroPublicKey;
  en_signature := []
|}.

(** [iproto.EndorsePb_EndorsementTopic]: a proto3 enumeration, an [int32]
    on the wire. *)
Definition EndorsePb_PROPOSAL : Z := 0.
Definition EndorsePb_COMMIT : Z := 1.

(** [iproto.EndorsePb], with the field numbers of [blockchain.proto]. *)
Record EndorsePb := {
  pb_Height : Z;
  pb_BlockHash : list byte;
  pb_Topic : Z;
  pb_Endorser : string;
  pb_EndorserPubKey : list byte;
  pb_Decision : bool;
  pb_Signature : list byte
}.

Definition toProtoMsg (en : endorse) : EndorsePb :=
  let topic := if en_topic en then EndorsePb_COMMIT else EndorsePb_PROPOSAL in
  {| pb_Height := en_height en;
     pb_BlockHash := vec_to_list (en_blkHash en);
     pb_Topic := topic;
     pb_Endorser := en_endorser en;
     pb_EndorserPubKey := vec_to_list (en_endorserPubkey en);
     pb_Decision := en_decision en;
     pb_Signature := en_signature en |}.

(** [fromProtoMsg] fills the receiver [en] in place; the receiver as it is
    left is returned with the error.  On a public key that does not parse
    the block hash and the topic have already been written. *)
Definition fromProtoMsg (en : endorse) (endorsePb : EndorsePb) : endorse * option error :=
  let blkHash := vcopy (en_blkHash en) (pb_BlockHash endorsePb) in
  let topic :=
    if decide (pb_Topic endorsePb = EndorsePb_PROPOSAL) then endorseProposal
    else if decide (pb_Topic endorsePb = EndorsePb_COMMIT) then endorseCommit
    else en_topic en in
  match BytesToPublicKey (pb_EndorserPubKey endorsePb) with
  | (_, Some err) =>
      ({| en_topic := topic; en_height := en_height en; en_blkHash := blkHash;
          en_decision := en_decision en; en_endorser := en_endorser en;
          en_endorserPubkey := en_endorserPubkey en;
          en_signature := en_signature en |}, Some err)
  | (pubKey, None) =>
      ({| en_topic := topic; en_height := pb_Height endorsePb; en_blkHash := blkHash;
          en_decision := pb_Decision endorsePb; en_endorser := pb_Endorser endorsePb;
          en_endorserPubkey := pubKey;
          en_signature := copy (en_signature en) (pb_Signature endorsePb) |}, None)
  end.

(** The byte stream as the specification writes it. *)
Definition topic_byte (topic : bool) : byte :=
  if bool_decide (topic = endorseCommit) then Byte.x01 else Byte.x00.

Definition decision_byte (decision : bool) : byte :=
  if decision then Byte.x01 else Byte.x00.

Definition canonical_stream (en : endorse) : list byte :=
  le_bytes 8 (en_height en) ++ [topic_byte (en_topic en)]
    ++ vec_to_list (en_blkHash en) ++ [decision_byte (en_decision en)].

(** The cryptographic primitives are those of external packages:
    BLAKE2b-256, the EC283 signature scheme, and the address encoding. *)
Class Crypto := {
  blake2b_Sum256 : list byte → Hash32B;
  EC283_Sign : PrivateKey → list byte → list byte;
  EC283_Verify : PublicKey → list byte → list byte → bool;
  HashPubKey : PublicKey → list byte;
  GetPubkeyHash : string → result (list byte)
}.

Section Endorse.

Context `{Cr : Crypto}.

(** [ByteStream] returns a raw byte stream. *)
Definition ByteStream (en : endorse) : option (list byte) :=
  stream ← PutUint64 (make 8) (en_height en);
  let stream := if en_topic en then stream ++ [Byte.x01] else stream ++ [Byte.x00] in
  let stream := stream ++ vec_to_list (en_blkHash en) in
  let stream := if en_decision en then stream ++ [Byte.x01] else stream ++ [Byte.x00] in
  Some stream.

(** [Hash] returns the hash of the endorse for signature. *)
Definition Hash (en : endorse) : option Hash32B :=
  blake2b_Sum256 <$> ByteStream en.

(** [Sign] signs with the endorser's private key; the receiver is updated
    in place. *)
Definition Sign (en : endorse) (endorser : Address) : option (endorse * option error) :=
  if decide (addr_PrivateKey endorser = ZeroPrivateKey) then
    Some (en, Some (errors_New "The endorser's private key is empty"))
  else
    hash ← Hash en;
    Some ({| en_topic := en_topic en; en_height := en_height en;
             en_blkHash := en_blkHash en; en_decision := en_decision en;
             en_endorser := RawAddress endorser;
             en_endorserPubkey := addr_PublicKey endorser;
             en_signature := EC283_Sign (addr_PrivateKey endorser) (vec_to_list hash) |},
          None).

(** [VerifySignature] verifies the endorse with [pubkey]. *)
Definition VerifySignature (en : endorse) (pubkey : PublicKey) : option bool :=
  let pubkeyHash := HashPubKey pubkey in
  match GetPubkeyHash (en_endorser en) with
  | Err _ => Some false
  | Ok endorserPubkeyHash =>
      if negb (bool_decide (pubkeyHash = endorserPubkeyHash)) then Some false
      else
        hash ← Hash en;
        Some (EC283_Verify pubkey (vec_to_list hash) (en_signature en))
  end.

(** Serialize, then deserialize into a fresh record, as
    [newEndorseEvtWithEndorsePb] does. *)
Definition roundtrip (en : endorse) : endorse * option error :=
  fromProtoMsg endorse_zero (toProtoMsg en).

End Endorse.

(** ** Integer arithmetic of the Go types *)

Definition wrap64 (z : Z) : Z := z `mod` 2 ^ 64.
Definition add64 (a b : Z) : Z := wrap64 (a + b).
Definition sub64 (a b : Z) : Z := wrap64 (a - b).
Definition mul64 (a b : Z) : Z := wrap64 (a * b).

Definition maxDuration : Duration := 2 ^ 63 - 1.
Definition minDuration : Duration := - 2 ^ 63.

(** [time.Time.Before]. *)
Definition Before (t u : Time) : bool := t <? u.

(** [time.Time.Sub]: the difference, saturated to the range of a
    [Duration]. *)
Definition Sub (t u : Time) : Duration :=
  Z.max minDuration (Z.min maxDuration (t - u)).

(** Subtraction of two [Duration]s ([int64], two's complement). *)
Definition subDuration (a b : Duration) : Duration :=
  (a - b + 2 ^ 63) `mod` 2 ^ 64 - 2 ^ 63.

(** ** Blocks, as the core reads them

    The block type belongs to the chain collaborator.  The record keeps the
    header fields the core reads; the rest of the block is [blk_payload]. *)
Record Block := {
  blk_Height : Z;
  blk_ProducerAddress : string;
  blk_Timestamp : Time;
  blk_DKGID : list byte;
  blk_DKGPubkey : list byte;
  blk_DKGBlockSig : list byte;
  blk_signature : list byte;
  blk_payload : list byte
}.

(** ** States and events of the consensus FSM *)

Inductive State :=
| sEpochStart
| sDKGGeneration
| sRoundStart
| sInitPropose
| sAcceptPropose
| sAcceptProposalEndorse
| sAcceptCommitEndorse
| sInvalid.

Inductive EventType :=
| eRollDelegates
| eGenerateDKG
| eStartRound
| eInitBlock
| eProposeBlock
| eProposeBlockTimeout
| eEndorseProposal
| eEndorseProposalTimeout
| eEndorseCommit
| eEndorseCommitTimeout
| eFinishEpoch
| eBackdoor.

#[global] Instance State_eq_dec : EqDecision State.
Proof. solve_decision. Defined.

#[global] Instance EventType_eq_dec : EqDecision EventType.
Proof. solve_decision. Defined.

Definition ErrEvtCast : error := errors_New "error when casting the event".
Definition ErrEvtConvert : error :=
  errors_New "error when converting the event from/to the proto message".

(** [consensusStates] is a slice consisting of all consensus states. *)
Definition consensusStates : list State :=
  [sEpochStart; sDKGGeneration; sRoundStart; sInitPropose; sAcceptPropose;
   sAcceptProposalEndorse; sAcceptCommitEndorse].

Record consensusEvt := {
  evt_t : EventType;
  evt_ts : Time
}.

(** The implementations of the interface [iConsensusEvt]: the constructor is
    the dynamic type a Go type assertion on the event tests, the embedded
    [consensusEvt] carries the event type and the timestamp.  The block of
    a [proposeBlkEvt] is a pointer: [None] is the [nil] that
    [newProposeBlkEvtFromProposePb] leaves when the proposal carries no
    block. *)
Inductive iConsensusEvt :=
| CEvt (c : consensusEvt)
| ProposeBlkEvt (c : consensusEvt) (block : option Block)
| EndorseEvt (c : consensusEvt) (en : endorse)
| TimeoutEvt (c : consensusEvt)
| BackdoorEvt (c : consensusEvt) (dst : State).

Definition embedded (evt : iConsensusEvt) : consensusEvt :=
  match evt with
  | CEvt c | ProposeBlkEvt c _ | EndorseEvt c _ | TimeoutEvt c | BackdoorEvt c _ => c
  end.

Definition evtType (evt : iConsensusEvt) : EventType := evt_t (embedded evt).
Definition timestamp (evt : iConsensusEvt) : Time := evt_ts (embedded evt).

(** ** Round and epoch contexts *)

Record roundCtx := {
  rc_height : Z;
  rc_timestamp : Time;
  rc_block : option Block;
  rc_proposalEndorses : gmap Hash32B (gmap string bool);
  rc_commitEndorses : gmap Hash32B (gmap string bool);
  rc_proposer : string
}.

Record epochCtx := {
  ep_num : Z;
  ep_height : Z;
  ep_delegates : list string;
  ep_numSubEpochs : Z;
  ep_dkg : list byte;
  ep_seed : list byte
}.

Definition roundCtx_zero : roundCtx := {|
  rc_height := 0; rc_timestamp := 0; rc_block := None;
  rc_proposalEndorses := ∅; rc_commitEndorses := ∅; rc_proposer := ""
|}.

Definition epochCtx_zero : epochCtx := {|
  ep_num := 0; ep_height := 0; ep_delegates := []; ep_numSubEpochs := 0;
  ep_dkg := []; ep_seed := []
|}.

Inductive Level := Debug | Info | Warn | Error.

(** [endorses[endorser] = decision] on the inner map of [blkHash], created
    when absent.  The inner map is shared with the outer one, so the write
    is seen through the round context.  The outer map is taken as made, as
    [handleStartRoundEvt] makes it with every round: the write to a [nil]
    outer map, on which Go panics, is outside the model. *)
Definition tally (blkHash : Hash32B) (endorser : string) (decision : bool)
    (endorses : gmap Hash32B (gmap string bool)) : gmap Hash32B (gmap string bool) :=
  <[blkHash := <[endorser := decision]> (default ∅ (endorses !! blkHash))]> endorses.

(** ** The consensus context and the state machine *)

Section FSM.

(** The state of the chain collaborator and the wire form of a block are
    the collaborator's own. *)
Context {Chain BlockPb : Type}.

(** Messages handed to the P2P collaborator for broadcast. *)
Inductive pbMsg :=
| ProposePbMsg (Proposer : string) (Block_ : option BlockPb)
| EndorsePbMsg (e : EndorsePb)
| BlockPbMsg (b : BlockPb).

(** [rollDPoSCtx]: configuration, identity, collaborators and the epoch and
    round contexts.  [clock] is the reading of the clock handle. *)
Record rollDPoSCtx := {
  cfg : RollDPoS;
  addr : Address;
  chain : Chain;
  epoch : epochCtx;
  round : roundCtx;
  clock : Time
}.

(** [cFSM]: the current state of the wrapped FSM, the event queue, the
    delayed producers waiting on the clock, and the context; with what the
    machine has done so far to the logger, the P2P collaborator, the action
    pool and (the blocks handed to [CommitBlock]) the chain. *)
Record cFSM := {
  fsm_cur : State;
  evtq : list iConsensusEvt;
  delayed : list (Duration * iConsensusEvt);
  ctx : rollDPoSCtx;
  logs : list (Level * string);
  sent : list pbMsg;
  actPoolResets : nat;
  commits : list Block
}.

(** The collaborators (section 6 of the specification), the BLS scheme and
    the methods of [rollDPoSCtx], none of which is among the sources. *)
Class Collab := {
  Degree : Z;
  BLS_Verify : list byte → list byte → list byte → option error;
  BLS_SignAggregate : list (list byte) → list (list byte) → result (list byte);
  BLS_VerifyAggregate :
    list (list byte) → list (list byte) → list byte → list byte → option error;
  Block_VerifySignature : Block → bool;
  HashBlock : Block → Hash32B;
  IsDummyBlock : Block → bool;
  ConvertToBlockPb : Block → option BlockPb;
  ChainID : Chain → Z;
  ValidateBlock : Chain → Block → bool → option error;
  CommitBlock : Chain → Block → Chain * option error;
  MintNewDummyBlock : Chain → Block;
  GetBlockByHeight : Chain → Z → result Block;
  Broadcast : Z → pbMsg → option error;
  calcEpochNumAndHeight : rollDPoSCtx → result (Z * Z);
  rollingDelegates : rollDPoSCtx → Z → result (list string);
  generateDKG : rollDPoSCtx → result (list byte);
  rotatedProposer : rollDPoSCtx → result (string * Z);
  mintBlock : rollDPoSCtx → result Block;
  calcProposer : rollDPoSCtx → Z → list string → result string;
  calcQuorum : rollDPoSCtx → gmap string bool → bool * bool;
  isEpochFinished : rollDPoSCtx → result bool;
  calcDurationSinceLastBlock : rollDPoSCtx → result Duration
}.

Context `{Cr : Crypto} `{Co : Collab}.

(** *** Field updates *)

Definition set_epoch (e : epochCtx) (c : rollDPoSCtx) : rollDPoSCtx :=
  {| cfg := cfg c; addr := addr c; chain := chain c; epoch := e;
     round := round c; clock := clock c |}.

Definition set_round (r : roundCtx) (c : rollDPoSCtx) : rollDPoSCtx :=
  {| cfg := cfg c; addr := addr c; chain := chain c; epoch := epoch c;
     round := r; clock := clock c |}.

Definition set_chain (ch : Chain) (c : rollDPoSCtx) : rollDPoSCtx :=
  {| cfg := cfg c; addr := addr c; chain := ch; epoch := epoch c;
     round := round c; clock := clock c |}.

Definition set_dkg (dkg : list byte) (e : epochCtx) : epochCtx :=
  {| ep_num := ep_num e; ep_height := ep_height e; ep_delegates := ep_delegates e;
     ep_numSubEpochs := ep_numSubEpochs e; ep_dkg := dkg; ep_seed := ep_seed e |}.

Definition set_block (b : option Block) (r : roundCtx) : roundCtx :=
  {| rc_height := rc_height r; rc_timestamp := rc_timestamp r; rc_block := b;
     rc_proposalEndorses := rc_proposalEndorses r;
     rc_commitEndorses := rc_commitEndorses r; rc_proposer := rc_proposer r |}.

Definition set_proposalEndorses (e : gmap Hash32B (gmap string bool)) (r : roundCtx)
    : roundCtx :=
  {| rc_height := rc_height r; rc_timestamp := rc_timestamp r; rc_block := rc_block r;
     rc_proposalEndorses := e;
     rc_commitEndorses := rc_commitEndorses r; rc_proposer := rc_proposer r |}.

Definition set_commitEndorses (e : gmap Hash32B (gmap string bool)) (r : roundCtx)
    : roundCtx :=
  {| rc_height := rc_height r; rc_timestamp := rc_timestamp r; rc_block := rc_block r;
     rc_proposalEndorses := rc_proposalEndorses r;
     rc_commitEndorses := e; rc_proposer := rc_proposer r |}.

Definition set_ctx (c : rollDPoSCtx) (m : cFSM) : cFSM :=
  {| fsm_cur := fsm_cur m; evtq := evtq m; delayed := delayed m; ctx := c;
     logs := logs m; sent := sent m; actPoolResets := actPoolResets m;
     commits := commits m |}.

Definition set_cur (s : State) (m : cFSM) : cFSM :=
  {| fsm_cur := s; evtq := evtq m; delayed := delayed m; ctx := ctx m;
     logs := logs m; sent := sent m; actPoolResets := actPoolResets m;
     commits := commits m |}.

(** *** The monad of the worker: state passing over [cFSM], [None] a panic *)

Definition M (A : Type) : Type := cFSM → option (A * cFSM).

Definition ret {A} (a : A) : M A := λ m, Some (a, m).

Definition bind {A B} (x : M A) (f : A → M B) : M B :=
  λ m, match x m with
       | Some (a, m') => f a m'
       | None => None
       end.

Definition panic {A} : M A := λ _, None.

Notation "x <- c1 ;; c2" := (bind c1 (λ x, c2))
  (at level 20, c1 at level 99, c2 at level 200, only parsing).
Notation "c1 ;; c2" := (bind c1 (λ _, c2))
  (at level 100, c2 at level 200, only parsing, right associativity).

Definition getCtx : M rollDPoSCtx := λ m, Some (ctx m, m).

Definition modifyCtx (f : rollDPoSCtx → rollDPoSCtx) : M unit :=
  λ m, Some (tt, set_ctx (f (ctx m)) m).

Definition setRound (r : roundCtx) : M unit := modifyCtx (set_round r).
Definition setEpoch (e : epochCtx) : M unit := modifyCtx (set_epoch e).

(** A call of the logger: level and message. *)
Definition logger (lvl : Level) (msg : string) : M unit :=
  λ m, Some (tt, {| fsm_cur := fsm_cur m; evtq := evtq m; delayed := delayed m;
                    ctx := ctx m; logs := logs m ++ [(lvl, msg)]; sent := sent m;
                    actPoolResets := actPoolResets m;
                    commits := commits m |}).

(** [m.ctx.p2p.Broadcast(m.ctx.chain.ChainID(), msg)] *)
Definition p2p_Broadcast (msg : pbMsg) : M (option error) :=
  λ m, Some (Broadcast (ChainID (chain (ctx m))) msg,
             {| fsm_cur := fsm_cur m; evtq := evtq m; delayed := delayed m;
                ctx := ctx m; logs := logs m; sent := sent m ++ [msg];
                actPoolResets := actPoolResets m;
                commits := commits m |}).

(** [m.ctx.actPool.Reset()] *)
Definition actPool_Reset : M unit :=
  λ m, Some (tt, {| fsm_cur := fsm_cur m; evtq := evtq m; delayed := delayed m;
                    ctx := ctx m; logs := logs m; sent := sent m;
                    actPoolResets := S (actPoolResets m);
                    commits := commits m |}).

(** [m.ctx.chain.CommitBlock(blk)] *)
Definition chain_CommitBlock (blk : Block) : M (option error) :=
  λ m, let '(ch, err) := CommitBlock (chain (ctx m)) blk in
       Some (err, {| fsm_cur := fsm_cur m; evtq := evtq m; delayed := delayed m;
                     ctx := set_chain ch (ctx m); logs := logs m; sent := sent m;
                     actPoolResets := actPoolResets m;
                     commits := commits m ++ [blk] |}).

(** [produce] adds an event into the queue for the consensus FSM to
    process: at once when [delay] is not positive, otherwise by a producer
    that waits [delay] on the clock.  The queue is a list: the capacity of
    the channel, on which a send would block, is not modelled. *)
Definition produce (evt : iConsensusEvt) (delay : Duration) : M unit :=
  λ m, if 0 <? delay then
         Some (tt, {| fsm_cur := fsm_cur m; evtq := evtq m;
                      delayed := delayed m ++ [(delay, evt)]; ctx := ctx m;
                      logs := logs m; sent := sent m;
                      actPoolResets := actPoolResets m;
                      commits := commits m |})
       else
         Some (tt, {| fsm_cur := fsm_cur m; evtq := evtq m ++ [evt];
                      delayed := delayed m; ctx := ctx m;
                      logs := logs m; sent := sent m;
                      actPoolResets := actPoolResets m;
                      commits := commits m |}).

(** *** Event constructors *)

Definition newCEvt (t : EventType) : M consensusEvt :=
  c <- getCtx ;; ret {| evt_t := t; evt_ts := clock c |}.

Definition newProposeBlkEvt (block : option Block) : M iConsensusEvt :=
  c <- newCEvt eProposeBlock ;; ret (ProposeBlkEvt c block).

Definition proposeBlkEvt_toProtoMsg (block : Block) : pbMsg :=
  ProposePbMsg (blk_ProducerAddress block) (ConvertToBlockPb block).

(** [proposeBlkEvt.fromProtoMsg], on the field [Block] of the proposal: the
    block of the event is set only when the proposal carries one.
    [ConvertFromBlockPb] is the block's own decoding of its wire form. *)
Definition proposeBlkEvt_fromProtoMsg (ConvertFromBlockPb : BlockPb → Block)
    (e : iConsensusEvt) (pMsg_Block : option BlockPb) : iConsensusEvt * option error :=
  match e, pMsg_Block with
  | ProposeBlkEvt c _, Some blockPb => (ProposeBlkEvt c (Some (ConvertFromBlockPb blockPb)), None)
  | _, _ => (e, None)
  end.

(** [newProposeBlkEvtFromProposePb]: the event for a proposal received from
    the network. *)
Definition newProposeBlkEvtFromProposePb (ConvertFromBlockPb : BlockPb → Block)
    (pb_Block : option BlockPb) : M (result iConsensusEvt) :=
  pbEvt <- newProposeBlkEvt None ;;
  match proposeBlkEvt_fromProtoMsg ConvertFromBlockPb pbEvt pb_Block with
  | (_, Some err) =>
      ret (Err (errors_Wrap err "error when casting a proto msg to proposeBlkEvt"))
  | (pbEvt, None) => ret (Ok pbEvt)
  end.

Definition newEndorseEvtWithEndorse (en : endorse) : M iConsensusEvt :=
  let eventType :=
    if bool_decide (en_topic en = endorseProposal) then eEndorseProposal
    else eEndorseCommit in
  c <- newCEvt eventType ;; ret (EndorseEvt c en).

Definition newEndorseEvt (topic : bool) (blkHash : Hash32B) (decision : bool)
    (height : Z) (endorser : Address) : M (result (iConsensusEvt * endorse)) :=
  let en := {| en_topic := topic; en_height := height; en_blkHash := blkHash;
               en_decision := decision; en_endorser := "";
               en_endorserPubkey := ZeroPublicKey; en_signature := [] |} in
  match Sign en endorser with
  | None => panic
  | Some (_, Some err) =>
      logger Error "failed to sign endorse for block" ;; ret (Err err)
  | Some (en', None) =>
      evt <- newEndorseEvtWithEndorse en' ;; ret (Ok (evt, en'))
  end.

Definition newEndorseProposalEvt (blkHash : Hash32B) (decision : bool)
    : M (result (iConsensusEvt * endorse)) :=
  c <- getCtx ;;
  newEndorseEvt endorseProposal blkHash decision (rc_height (round c)) (addr c).

Definition newEndorseCommitEvt (blkHash : Hash32B) (decision : bool)
    : M (result (iConsensusEvt * endorse)) :=
  c <- getCtx ;;
  newEndorseEvt endorseCommit blkHash decision (rc_height (round c)) (addr c).

(** [newEndorseEvtWithEndorsePb]: the event for an endorsement received
    from the network, deserialized into a fresh record. *)
Definition newEndorseEvtWithEndorsePb (ePb : EndorsePb) : M (result iConsensusEvt) :=
  match fromProtoMsg endorse_zero ePb with
  | (_, Some err) =>
      ret (Err (errors_Wrap err "error when casting a proto msg to endorse"))
  | (en, None) => evt <- newEndorseEvtWithEndorse en ;; ret (Ok evt)
  end.

Definition newTimeoutEvt (t : EventType) (height : Z) : M iConsensusEvt :=
  c <- newCEvt t ;; ret (TimeoutEvt c).

Definition newBackdoorEvt (dst : State) : M iConsensusEvt :=
  c <- newCEvt eBackdoor ;; ret (BackdoorEvt c dst).

Definition produceCEvt (t : EventType) (delay : Duration) : M unit :=
  c <- newCEvt t ;; produce (CEvt c) delay.

(** *** Handlers *)

Definition handler : Type := iConsensusEvt → M (State * option error).

Definition isDelegate (delegates : list string) : M bool :=
  c <- getCtx ;;
  ret (existsb (λ d, bool_decide (RawAddress (addr c) = d)) delegates).

Definition produceStartRoundEvt : M (option error) :=
  c <- getCtx ;;
  let continue (duration : Duration) : M (option error) :=
    (* the next round only starts after the configured interval since the
       last block's creation *)
    (if ProposerInterval (cfg c) <=? duration then produceCEvt eStartRound 0
     else produceCEvt eStartRound (subDuration (ProposerInterval (cfg c)) duration)) ;;
    ret None in
  match rc_block (round c) with
  | Some blk => continue (Sub (clock c) (blk_Timestamp blk))
  | None =>
      match calcDurationSinceLastBlock c with
      | Err err =>
          ret (Some (errors_Wrap err
                       "error when computing the duration since last block time"))
      | Ok duration => continue duration
      end
  end.

Definition handleRollDelegatesEvt : handler := λ _,
  c <- getCtx ;;
  match calcEpochNumAndHeight c with
  | Err err =>
      (* schedule the next check of delegates to tolerate a transient error *)
      produceCEvt eRollDelegates (DelegateInterval (cfg c)) ;;
      ret (sInvalid,
           Some (errors_Wrap err
             "error when determining the epoch ordinal number and start height offset"))
  | Ok (epochNum, epochHeight) =>
      match rollingDelegates c epochNum with
      | Err err =>
          produceCEvt eRollDelegates (DelegateInterval (cfg c)) ;;
          ret (sInvalid,
               Some (errors_Wrap err
                 "error when determining if the node will participate into next epoch"))
      | Ok delegates =>
          isD <- isDelegate delegates ;;
          if isD : bool then
            let numSubEpochs :=
              if 0 <? NumSubEpochs (cfg c) then NumSubEpochs (cfg c) else 1 in
            setEpoch {| ep_num := epochNum; ep_height := epochHeight;
                        ep_delegates := delegates; ep_numSubEpochs := numSubEpochs;
                        ep_dkg := []; ep_seed := [] |} ;;
            produceCEvt eGenerateDKG 0 ;;
            logger Info "current node is the delegate" ;;
            ret (sDKGGeneration, None)
          else
            produceCEvt eRollDelegates (DelegateInterval (cfg c)) ;;
            logger Info "current node is not the delegate" ;;
            ret (sEpochStart, None)
      end
  end.

Definition handleGenerateDKGEvt : handler := λ _,
  c <- getCtx ;;
  match generateDKG c with
  | Err err => ret (sInvalid, Some err)
  | Ok dkg =>
      setEpoch (set_dkg dkg (epoch c)) ;;
      err <- produceStartRoundEvt ;;
      match err with
      | Some err => ret (sInvalid, Some (errors_Wrap err "error when producing E_START_ROUND"))
      | None => ret (sRoundStart, None)
      end
  end.

Definition handleStartRoundEvt : handler := λ _,
  c <- getCtx ;;
  match rotatedProposer c with
  | Err err =>
      logger Error "error when getting the proposer" ;;
      ret (sInvalid, Some err)
  | Ok (proposer, height) =>
      setRound {| rc_height := height; rc_timestamp := clock c; rc_block := None;
                  rc_proposalEndorses := ∅; rc_commitEndorses := ∅;
                  rc_proposer := proposer |} ;;
      if bool_decide (proposer = RawAddress (addr c)) then
        logger Info "current node is the proposer" ;;
        produceCEvt eInitBlock 0 ;;
        ret (sInitPropose, None)
      else
        logger Info "current node is not the proposer" ;;
        (* set up the timeout for waiting for the proposed block *)
        evt <- newTimeoutEvt eProposeBlockTimeout height ;;
        produce evt (AcceptProposeTTL (cfg c)) ;;
        ret (sAcceptPropose, None)
  end.

Definition handleInitBlockEvt : handler := λ _,
  c <- getCtx ;;
  match mintBlock c with
  | Err err => ret (sInvalid, Some (errors_Wrap err "error when minting a block"))
  | Ok blk =>
      proposeBlkEvt <- newProposeBlkEvt (Some blk) ;;
      let proposeBlkEvtProto := proposeBlkEvt_toProtoMsg blk in
      (* notify itself *)
      produce proposeBlkEvt 0 ;;
      (* notify other delegates *)
      err <- p2p_Broadcast proposeBlkEvtProto ;;
      (if err is Some _ then logger Error "error when broadcasting proposeBlkEvt"
       else ret tt) ;;
      ret (sAcceptPropose, None)
  end.

Definition verifyDKGSignature (blk : Block) (seedByte : list byte) : option error :=
  BLS_Verify (blk_DKGPubkey blk) seedByte (blk_DKGBlockSig blk).

Definition validateProposeBlock (blk : Block) (expectedProposer : string) : M bool :=
  c <- getCtx ;;
  if negb (bool_decide (blk_Height blk = rc_height (round c))) then
    logger Error "error when validating the block height" ;; ret false
  else
    let producer := blk_ProducerAddress blk in
    if bool_decide (producer = "") || negb (bool_decide (producer = expectedProposer)) then
      logger Error "error when validating the block proposer" ;; ret false
    else if negb (Block_VerifySignature blk) then
      logger Error "error when validating the block signature" ;; ret false
    else if bool_decide (producer = RawAddress (addr c)) then
      (* if the block is self proposed, skip validation *)
      ret true
    else if ValidateBlock (chain c) blk true is Some _ then
      logger Error "error when validating the proposed block" ;; ret false
    else if (0 <? Z.of_nat (length (blk_DKGPubkey blk)))
            && (0 <? Z.of_nat (length (blk_DKGBlockSig blk))) then
      if verifyDKGSignature blk (ep_seed (epoch c)) is Some _ then
        logger Error "Failed to verify the DKG signature" ;; ret false
      else ret true
    else ret true.

Definition moveToAcceptProposalEndorse : M (State * option error) :=
  c <- getCtx ;;
  (* set up the timeout for waiting for endorse *)
  evt <- newTimeoutEvt eEndorseProposalTimeout (rc_height (round c)) ;;
  produce evt (AcceptProposalEndorseTTL (cfg c)) ;;
  ret (sAcceptProposalEndorse, None).

Definition handleProposeBlockEvt : handler := λ evt,
  if negb (bool_decide (evtType evt = eProposeBlock)) then
    ret (sInvalid, Some (errors_New "invalid event type"))
  else
    c <- getCtx ;;
    setRound (set_block None (round c)) ;;
    match evt with
    | ProposeBlkEvt _ None =>
        (* [proposeBlkEvt.block.Height()] dereferences the nil block *)
        panic
    | ProposeBlkEvt _ (Some block) =>
        c <- getCtx ;;
        match calcProposer c (blk_Height block) (ep_delegates (epoch c)) with
        | Err err =>
            ret (sInvalid, Some (errors_Wrap err "error when calculating the proposer"))
        | Ok proposer =>
            valid <- validateProposeBlock block proposer ;;
            if negb valid then ret (sAcceptPropose, None)
            else
              c <- getCtx ;;
              setRound (set_block (Some block) (round c)) ;;
              r <- newEndorseProposalEvt (HashBlock block) true ;;
              match r with
              | Err err =>
                  ret (sInvalid,
                       Some (errors_Wrap err
                               "error when generating new endorse proposal event"))
              | Ok (endorseEvt, en) =>
                  let endorseEvtProto := EndorsePbMsg (toProtoMsg en) in
                  (* notify itself *)
                  produce endorseEvt 0 ;;
                  (* notify other delegates *)
                  err <- p2p_Broadcast endorseEvtProto ;;
                  (if err is Some _ then
                     logger Error "error when broadcasting endorseEvtProto"
                   else ret tt) ;;
                  moveToAcceptProposalEndorse
              end
        end
    | _ => ret (sInvalid, Some (errors_Wrap ErrEvtCast "the event is not a proposeBlkEvt"))
    end.

Definition handleProposeBlockTimeout : handler := λ evt,
  if negb (bool_decide (evtType evt = eProposeBlockTimeout)) then
    ret (sInvalid, Some (errors_New "invalid event type"))
  else
    logger Warn "didn't receive the proposed block before timeout" ;;
    moveToAcceptProposalEndorse.

Definition validateEndorse (en : endorse) (expectedEndorseTopic : bool) : M bool :=
  c <- getCtx ;;
  if negb (bool_decide (en_topic en = expectedEndorseTopic)) then
    logger Error "error when validating the endorse topic" ;; ret false
  else if negb (bool_decide (en_height en = rc_height (round c))) then
    logger Error "error when validating the endorse height" ;; ret false
  else ret true.

Definition moveToAcceptCommitEndorse : M (State * option error) :=
  c <- getCtx ;;
  (* set up the timeout for waiting for commit *)
  evt <- newTimeoutEvt eEndorseCommitTimeout (rc_height (round c)) ;;
  produce evt (AcceptCommitEndorseTTL (cfg c)) ;;
  ret (sAcceptCommitEndorse, None).

Definition handleEndorseProposalEvt : handler := λ evt,
  if negb (bool_decide (evtType evt = eEndorseProposal)) then
    ret (sInvalid, Some (errors_New "invalid event type"))
  else
    match evt with
    | EndorseEvt _ en =>
        valid <- validateEndorse en endorseProposal ;;
        if negb valid then ret (sAcceptProposalEndorse, None)
        else
          let blkHash := en_blkHash en in
          c <- getCtx ;;
          setRound (set_proposalEndorses
                      (tally blkHash (en_endorser en) (en_decision en)
                         (rc_proposalEndorses (round c)))
                      (round c)) ;;
          c <- getCtx ;;
          let '(yes, no) :=
            calcQuorum c (default ∅ (rc_proposalEndorses (round c) !! blkHash)) in
          if negb yes && negb no then
            (* wait for more endorses to come *)
            ret (sAcceptProposalEndorse, None)
          else
            (* reached the agreement *)
            r <- newEndorseCommitEvt blkHash (yes && negb no) ;;
            match r with
            | Err err =>
                ret (sInvalid,
                     Some (errors_Wrap err "failed to generate endorse commit event"))
            | Ok (cEvt, en') =>
                let cEvtProto := EndorsePbMsg (toProtoMsg en') in
                (* notify itself *)
                produce cEvt 0 ;;
                (* notify other delegates *)
                err <- p2p_Broadcast cEvtProto ;;
                (if err is Some _ then
                   logger Error "error when broadcasting commitEvtProto"
                 else ret tt) ;;
                moveToAcceptCommitEndorse
            end
    | _ => ret (sInvalid, Some (errors_Wrap ErrEvtCast "the event is not an endorseEvt"))
    end.

Definition handleEndorseProposalTimeout : handler := λ evt,
  if negb (bool_decide (evtType evt = eEndorseProposalTimeout)) then
    ret (sInvalid, Some (errors_New "invalid event type"))
  else
    logger Warn "didn't collect enough proposal endorses before timeout" ;;
    moveToAcceptCommitEndorse.

Definition processEndorseCommit (consensus : bool) : M (State * option error) :=
  c <- getCtx ;;
  pendingBlock <-
    (if consensus then
       logger Info "consensus reached" ;;
       ret (rc_block (round c))
     else
       logger Warn "consensus did not reach" ;;
       if EnableDummyBlock (cfg c) then
         let blk := MintNewDummyBlock (chain c) in
         logger Warn "dummy block is generated" ;;
         ret (Some blk)
       else ret None) ;;
  (if pendingBlock is Some blk then
     (* commit and broadcast the pending block *)
     err <- chain_CommitBlock blk ;;
     (if err is Some _ then logger Error "error when committing a block" else ret tt) ;;
     (* remove transfers in this block from ActPool and reset ActPool state *)
     actPool_Reset ;;
     (* broadcast the committed block to the network *)
     if ConvertToBlockPb blk is Some blkProto then
       err <- p2p_Broadcast (BlockPbMsg blkProto) ;;
       if err is Some _ then logger Error "error when broadcasting blkProto" else ret tt
     else logger Error "error when converting a block into a proto msg"
   else ret tt) ;;
  produceCEvt eFinishEpoch 0 ;;
  ret (sRoundStart, None).

Definition handleEndorseCommitEvt : handler := λ evt,
  if negb (bool_decide (evtType evt = eEndorseCommit)) then
    ret (sInvalid, Some (errors_New "invalid event type"))
  else
    match evt with
    | EndorseEvt _ en =>
        if negb (bool_decide (en_topic en = endorseCommit)) then
          ret (sAcceptCommitEndorse, None)
        else
          let blkHash := en_blkHash en in
          c <- getCtx ;;
          setRound (set_commitEndorses
                      (tally blkHash (en_endorser en) (en_decision en)
                         (rc_commitEndorses (round c)))
                      (round c)) ;;
          c <- getCtx ;;
          let '(yes, no) :=
            calcQuorum c (default ∅ (rc_commitEndorses (round c) !! blkHash)) in
          if negb yes && negb no then
            (* wait for more votes to come *)
            ret (sAcceptCommitEndorse, None)
          else processEndorseCommit (yes && negb no)
    | _ => ret (sInvalid, Some (errors_Wrap ErrEvtCast "the event is not an endorseEvt"))
    end.

Definition handleEndorseCommitTimeout : handler := λ evt,
  if negb (bool_decide (evtType evt = eEndorseCommitTimeout)) then
    ret (sInvalid, Some (errors_New "invalid event type"))
  else
    logger Warn "didn't collect enough commit endorse before timeout" ;;
    processEndorseCommit false.

Definition handleFinishEpochEvt : handler := λ _,
  c <- getCtx ;;
  match isEpochFinished c with
  | Err err =>
      ret (sInvalid, Some (errors_Wrap err "error when checking if the epoch is finished"))
  | Ok finished =>
      if finished : bool then
        produceCEvt eRollDelegates 0 ;;
        ret (sEpochStart, None)
      else
        err <- produceStartRoundEvt ;;
        match err with
        | Some err =>
            ret (sInvalid, Some (errors_Wrap err "error when producing E_START_ROUND"))
        | None => ret (sRoundStart, None)
        end
  end.

(** [handleBackdoorEvt] takes the dst state from the event and moves the
    FSM into it. *)
Definition handleBackdoorEvt : handler := λ evt,
  match evt with
  | BackdoorEvt _ dst => ret (dst, None)
  | _ => ret (sInvalid, Some (errors_Wrap ErrEvtCast "the event is not a backdoorEvt"))
  end.

(** *** The transition table of [newConsensusFSM]

    One entry per [AddTransition]: source state, event type, handler and
    the destinations the handler may return. *)
Definition transitions : list (State * EventType * handler * list State) :=
  [ (sEpochStart, eRollDelegates, handleRollDelegatesEvt, [sEpochStart; sDKGGeneration]);
    (sDKGGeneration, eGenerateDKG, handleGenerateDKGEvt, [sRoundStart]);
    (sRoundStart, eStartRound, handleStartRoundEvt, [sInitPropose; sAcceptPropose]);
    (sRoundStart, eFinishEpoch, handleFinishEpochEvt, [sEpochStart; sRoundStart]);
    (sInitPropose, eInitBlock, handleInitBlockEvt, [sAcceptPropose]);
    (sAcceptPropose, eProposeBlock, handleProposeBlockEvt,
      [sAcceptPropose; sAcceptProposalEndorse]);
    (sAcceptPropose, eProposeBlockTimeout, handleProposeBlockTimeout,
      [sAcceptProposalEndorse]);
    (sAcceptProposalEndorse, eEndorseProposal, handleEndorseProposalEvt,
      [sAcceptProposalEndorse; sAcceptCommitEndorse]);
    (sAcceptProposalEndorse, eEndorseProposalTimeout, handleEndorseProposalTimeout,
      [sAcceptCommitEndorse]);
    (sAcceptCommitEndorse, eEndorseCommit, handleEndorseCommitEvt,
      [sAcceptCommitEndorse; sRoundStart]);
    (sAcceptCommitEndorse, eEndorseCommitTimeout, handleEndorseCommitTimeout,
      [sRoundStart]) ]
  ++ map (λ state, (state, eBackdoor, handleBackdoorEvt, consensusStates)) consensusStates.

Definition findTransition (src : State) (t : EventType)
    : option (handler * list State) :=
  match find (λ tr, bool_decide (tr.1.1.1 = src) && bool_decide (tr.1.1.2 = t)) transitions with
  | Some tr => Some (tr.1.2, tr.2)
  | None => None
  end.

(** The outcomes of [fsm.Handle]: [nil], the error whose cause is
    [fsm.ErrTransitionNotFound], and the other errors. *)
Inductive handleError :=
| ErrTransitionNotFound
| ErrHandler (e : error)
| ErrInvalidDst (dst : State).

(** Modelled from the spec: the dispatch of the FSM library, which is not
    among the sources.  The handler of the edge for the current state and
    the type of the event runs; with no such edge the transition is not
    found; when the handler returns an error, or a state that is not one of
    the edge's destinations, no transition occurs and the FSM remains in the
    prior state. *)
Definition fsm_Handle (evt : iConsensusEvt) : M (option handleError) :=
  λ m, match findTransition (fsm_cur m) (evtType evt) with
       | None => Some (Some ErrTransitionNotFound, m)
       | Some (h, dsts) =>
           match h evt m with
           | None => None
           | Some ((_, Some err), m') => Some (Some (ErrHandler err), m')
           | Some ((dst, None), m') =>
               if bool_decide (dst ∈ dsts) then Some (None, set_cur dst m')
               else Some (Some (ErrInvalidDst dst), m')
           end
       end.

(** *** The worker of [Start]: what it does with one dequeued event *)
Definition handleEvt (evt : iConsensusEvt) : M unit :=
  c <- getCtx ;;
  if (if evt is TimeoutEvt _ then Before (timestamp evt) (rc_timestamp (round c))
      else false) then
    logger Debug "timeoutEvt is stale"
  else
    err <- fsm_Handle evt ;;
    match err with
    | Some ErrTransitionNotFound =>
        c <- getCtx ;;
        if Sub (clock c) (timestamp evt) <=? UnmatchedEventTTL (cfg c) then
          produce evt (UnmatchedEventInterval (cfg c)) ;;
          logger Debug "consensusEvt state transition could find the match"
        else ret tt
    | Some _ => logger Error "consensusEvt state transition fails"
    | None => logger Debug "consensusEvt state transition happens"
    end.

(** One turn of the worker's loop on the event channel: [None] when the
    queue is empty (the worker waits), otherwise the outcome of handling
    the first event. *)
Definition Start_step (m : cFSM) : option (option cFSM) :=
  match evtq m with
  | [] => None
  | evt :: q =>
      Some (snd <$> handleEvt evt
              {| fsm_cur := fsm_cur m; evtq := q; delayed := delayed m; ctx := ctx m;
                 logs := logs m; sent := sent m; actPoolResets := actPoolResets m;
                 commits := commits m |})
  end.

(** *** Seed aggregation *)

(** A block bears DKG material when its [DKGID], [DKGPubkey] and
    [DKGBlockSig] are all non-empty. *)
Definition bearsDKG (blk : Block) : bool :=
  (0 <? Z.of_nat (length (blk_DKGID blk)))
  && (0 <? Z.of_nat (length (blk_DKGPubkey blk)))
  && (0 <? Z.of_nat (length (blk_DKGBlockSig blk))).

(** The loop of [updateSeed],
    [for i := startHeight; i <= endHeight && len(selectedID) < Degree+1; i++],
    with the three slices it appends to.  [fuel] bounds the number of turns;
    [None] means the bound was reached before the loop ended. *)
Fixpoint scanDKG (fuel : nat) (ch : Chain) (i endHeight : Z)
    (selectedID selectedSig selectedPK : list (list byte)) {struct fuel}
    : option (list (list byte) * list (list byte) * list (list byte)) :=
  if (i <=? endHeight) && (Z.of_nat (length selectedID) <? Degree + 1) then
    match fuel with
    | O => None
    | S fuel' =>
        match GetBlockByHeight ch i with
        | Err _ =>
            scanDKG fuel' ch (add64 i 1) endHeight selectedID selectedSig selectedPK
        | Ok blk =>
            if bearsDKG blk then
              scanDKG fuel' ch (add64 i 1) endHeight
                (selectedID ++ [blk_DKGID blk])
                (selectedSig ++ [blk_DKGBlockSig blk])
                (selectedPK ++ [blk_DKGPubkey blk])
            else
              scanDKG fuel' ch (add64 i 1) endHeight selectedID selectedSig selectedPK
        end
    end
  else Some (selectedID, selectedSig, selectedPK).

Definition seedStartHeight (c : rollDPoSCtx) (epochNum : Z) : Z :=
  add64 (mul64 (mul64 (NumDelegates (cfg c)) (NumSubEpochs (cfg c))) (sub64 epochNum 2)) 1.

Definition seedEndHeight (epochHeight : Z) : Z := sub64 epochHeight 1.

(** What [updateSeed] does once the loop has selected its blocks. *)
Definition aggregateSeed (c : rollDPoSCtx)
    (selectedID selectedSig selectedPK : list (list byte)) : list byte * option error :=
  if Z.of_nat (length selectedID) <? Degree + 1 then
    ([], Some (errors_New "DKG signature/pubic key is not enough to aggregate"))
  else
    match BLS_SignAggregate selectedID selectedSig with
    | Err err =>
        ([], Some (errors_Wrap err "Failed to generate aggregate signature to update Seed"))
    | Ok aggregateSig =>
        match BLS_VerifyAggregate selectedID selectedPK (ep_seed (epoch c)) aggregateSig with
        | Some err =>
            ([], Some (errors_Wrap err "Failed to verify aggregate signature to update Seed"))
        | None => (aggregateSig, None)
        end
    end.

Definition updateSeed (fuel : nat) (m : cFSM) : option (list byte * option error) :=
  let c := ctx m in
  match calcEpochNumAndHeight c with
  | Err err => Some ([], Some (errors_Wrap err "Failed to do decode seed"))
  | Ok (epochNum, epochHeight) =>
      if epochNum <=? 1 then Some ([], None)
      else
        let endHeight := seedEndHeight epochHeight in
        let startHeight := seedStartHeight c epochNum in
        match scanDKG fuel (chain c) startHeight endHeight [] [] [] with
        | None => None
        | Some (selectedID, selectedSig, selectedPK) =>
            Some (aggregateSeed c selectedID selectedSig selectedPK)
        end
  end.

(** The window of the previous epoch as the specification describes it: the
    blocks found at the heights [startHeight .. endHeight], in order, and
    among them the first [Degree + 1] that bear DKG material. *)
Definition windowBlocks (ch : Chain) (startHeight endHeight : Z) : list Block :=
  omap (λ i, match GetBlockByHeight ch i with Ok blk => Some blk | Err _ => None end)
       (seqZ startHeight (endHeight - startHeight + 1)).

Definition selectedBlocks (ch : Chain) (startHeight endHeight : Z) : list Block :=
  take (Z.to_nat (Degree + 1))
       (filter (λ blk, bearsDKG blk = true) (windowBlocks ch startHeight endHeight)).

(** *** The acceptance of a proposed block, as the specification states it *)

Definition carriesDKG (blk : Block) : Prop :=
  blk_DKGPubkey blk ≠ [] ∧ blk_DKGBlockSig blk ≠ [].

(** Checks (1) to (5) against the expected proposer. *)
Definition checksFor (c : rollDPoSCtx) (blk : Block) (expected : string) : Prop :=
  blk_Height blk = rc_height (round c)
  ∧ blk_ProducerAddress blk ≠ ""
  ∧ blk_ProducerAddress blk = expected
  ∧ Block_VerifySignature blk = true
  ∧ (blk_ProducerAddress blk = RawAddress (addr c)
     ∨ (ValidateBlock (chain c) blk true = None
        ∧ (carriesDKG blk →
           BLS_Verify (blk_DKGPubkey blk) (ep_seed (epoch c)) (blk_DKGBlockSig blk)
           = None))).

Definition proposalChecks (c : rollDPoSCtx) (blk : Block) : Prop :=
  ∃ expected,
    calcProposer c (blk_Height blk) (ep_delegates (epoch c)) = Ok expected
    ∧ checksFor c blk expected.

(** The context in which the handler validates a proposal: [round.block]
    has been reset. *)
Definition atValidation (c : rollDPoSCtx) : rollDPoSCtx :=
  set_round (set_block None (round c)) c.

(** The round of [m'] stores the block, and the node's own proposal
    endorsement of it has gone from [m] to the queue and to the network. *)
Definition storedAndEndorsed (blk : Block) (m m' : cFSM) : Prop :=
  rc_block (round (ctx m')) = Some blk
  ∧ ∃ c en rest,
      en_topic en = endorseProposal
      ∧ en_height en = rc_height (round (ctx m))
      ∧ en_blkHash en = HashBlock blk
      ∧ en_decision en = true
      ∧ en_endorser en = RawAddress (addr (ctx m))
      ∧ evtq m' = evtq m ++ EndorseEvt c en :: rest
      ∧ sent m' = sent m ++ [EndorsePbMsg (toProtoMsg en)].

(** The block is accepted by the turn of the worker that leads from [m] to
    [m']: the FSM stores it, endorses it and is in
    [sAcceptProposalEndorse]. *)
Definition accepted (blk : Block) (m m' : cFSM) : Prop :=
  fsm_cur m' = sAcceptProposalEndorse ∧ storedAndEndorsed blk m m'.

(** The context once the commit endorsement [en] is tallied, and the
    decisions then recorded for its block hash. *)
Definition withCommitEndorse (en : endorse) (c : rollDPoSCtx) : rollDPoSCtx :=
  set_round (set_commitEndorses
               (tally (en_blkHash en) (en_endorser en) (en_decision en)
                  (rc_commitEndorses (round c)))
               (round c)) c.

Definition commitDecisions (en : endorse) (c : rollDPoSCtx) : gmap string bool :=
  <[en_endorser en := en_decision en]>
    (default ∅ (rc_commitEndorses (round c) !! en_blkHash en)).

(** The endorsement [en] once signed by [a]. *)
Definition signed (en : endorse) (a : Address) : endorse :=
  {| en_topic := en_topic en; en_height := en_height en;
     en_blkHash := en_blkHash en; en_decision := en_decision en;
     en_endorser := RawAddress a;
     en_endorserPubkey := addr_PublicKey a;
     en_signature :=
       EC283_Sign (addr_PrivateKey a)
         (vec_to_list (blake2b_Sum256 (canonical_stream en))) |}.

(** The proposal endorsement the node builds before signing it. *)
Definition proposalEndorse (blkHash : Hash32B) (m : cFSM) : endorse :=
  {| en_topic := endorseProposal; en_height := rc_height (round (ctx m));
     en_blkHash := blkHash; en_decision := true; en_endorser := "";
     en_endorserPubkey := ZeroPublicKey; en_signature := [] |}.

(** The machine after more calls of the logger. *)
Definition addLogs (l : list (Level * string)) (m : cFSM) : cFSM :=
  {| fsm_cur := fsm_cur m; evtq := evtq m; delayed := delayed m; ctx := ctx m;
     logs := logs m ++ l; sent := sent m; actPoolResets := actPoolResets m;
     commits := commits m |}.

Definition isTimeoutType (t : EventType) : Prop :=
  t = eProposeBlockTimeout ∨ t = eEndorseProposalTimeout ∨ t = eEndorseCommitTimeout.

(** An event the worker does not drop as a stale timeout. *)
Definition notStale (evt : iConsensusEvt) (m : cFSM) : Prop :=
  match evt with
  | TimeoutEvt c => rc_timestamp (round (ctx m)) ≤ evt_ts c
  | _ => True
  end.

(** The event [FinishEpoch] as the machine [m] makes it. *)
Definition finishEpochEvt (m : cFSM) : iConsensusEvt :=
  CEvt {| evt_t := eFinishEpoch; evt_ts := clock (ctx m) |}.

(** What the chain has been asked to commit once the commit phase of [m]
    has failed: the dummy block it minted when dummy blocks are enabled,
    nothing otherwise. *)
Definition dummyCommitted (m m' : cFSM) : Prop :=
  if EnableDummyBlock (cfg (ctx m)) then
    commits m' = commits m ++ [MintNewDummyBlock (chain (ctx m))]
    ∧ chain (ctx m') = (CommitBlock (chain (ctx m)) (MintNewDummyBlock (chain (ctx m)))).1
  else commits m' = commits m ∧ chain (ctx m') = chain (ctx m).


End FSM.

(** ** Views of the machine, for the statements below *)

Section FSMViews.
Context {Chain BlockPb : Type} `{Cr : !Crypto} `{Co : !@Collab Chain BlockPb}.

(** The machine [m'] has what [m] had: the queue, the delayed producers,
    the log, the messages sent and the blocks handed to the chain have only
    grown at their ends, and the configuration, the identity of the node and
    the reading of the clock are the same. *)
Definition grows (m m' : @cFSM Chain BlockPb) : Prop :=
  evtq m `prefix_of` evtq m'
  ∧ delayed m `prefix_of` delayed m'
  ∧ logs m `prefix_of` logs m'
  ∧ sent m `prefix_of` sent m'
  ∧ commits m `prefix_of` commits m'
  ∧ (actPoolResets m ≤ actPoolResets m')%nat
  ∧ cfg (ctx m') = cfg (ctx m)
  ∧ addr (ctx m') = addr (ctx m)
  ∧ clock (ctx m') = clock (ctx m).

(** The computation [x] returns, leaves the current state of the FSM as it
    was, only adds to the machine, and its result satisfies [Q]. *)
Definition keeps {A : Type} (x : @M Chain BlockPb A) (Q : A → Prop) : Prop :=
  ∀ m, ∃ a m', x m = Some (a, m') ∧ fsm_cur m' = fsm_cur m ∧ grows m m' ∧ Q a.

(** The event is not a proposal whose block pointer is [nil]: the one event
    on which a handler dereferences [nil]. *)
Definition hasBlock (evt : iConsensusEvt) : Prop :=
  match evt with
  | ProposeBlkEvt _ None => False
  | _ => True
  end.

(** The event went from [m] into the queue of [m'], at once or through a
    delayed producer. *)
Definition produced (evt : iConsensusEvt) (delay : Duration) (m m' : @cFSM Chain BlockPb)
    : Prop :=
  if 0 <? delay then delayed m' = delayed m ++ [(delay, evt)] ∧ evtq m' = evtq m
  else delayed m' = delayed m ∧ evtq m' = evtq m ++ [evt].







(** Nothing has been queued, delayed, sent, committed or reset between [m]
    and [m'], and the chain is the same. *)
Definition still (m m' : @cFSM Chain BlockPb) : Prop :=
  evtq m' = evtq m ∧ delayed m' = delayed m ∧ sent m' = sent m
  ∧ commits m' = commits m ∧ actPoolResets m' = actPoolResets m
  ∧ chain (ctx m') = chain (ctx m).

(** A computation that acts on the context and the log only. *)
Definition silent {A : Type} (x : @M Chain BlockPb A) : Prop :=
  ∀ m a m', x m = Some (a, m') → still m m'.

(** A computation that returns its errors with [sInvalid] and before it
    has acted on anything but the context and the log. *)
Definition failsStill (x : @M Chain BlockPb (State * option error)) : Prop :=
  ∀ m dst e m', x m = Some ((dst, Some e), m') → dst = sInvalid ∧ still m m'.

(** A computation that returns no error. *)
Definition neverFails (x : @M Chain BlockPb (State * option error)) : Prop :=
  ∀ m r m', x m = Some (r, m') → r.2 = None.



(** The round context that [handleStartRoundEvt] makes. *)
Definition freshRound (h : Z) (p : string) (m : @cFSM Chain BlockPb) : roundCtx :=
  {| rc_height := h; rc_timestamp := clock (ctx m); rc_block := None;
     rc_proposalEndorses := ∅; rc_commitEndorses := ∅; rc_proposer := p |}.

(** The endorsement [en] without its public key and its signature. *)
Definition unsigned (en : endorse) : endorse :=
  {| en_topic := en_topic en; en_height := en_height en;
     en_blkHash := en_blkHash en; en_decision := en_decision en;
     en_endorser := en_endorser en;
     en_endorserPubkey := ZeroPublicKey; en_signature := [] |}.


(** The timeout event of type [t] as the machine [m] makes it. *)
Definition timeoutEvtAt (t : EventType) (m : @cFSM Chain BlockPb) : iConsensusEvt :=
  TimeoutEvt {| evt_t := t; evt_ts := clock (ctx m) |}.


(** The edges of the transition table, by source state and event type. *)
Definition edge (src : State) (t : EventType) : option (handler * list State) :=
  match src, t with
  | sEpochStart, eRollDelegates =>
      Some (handleRollDelegatesEvt, [sEpochStart; sDKGGeneration])
  | sDKGGeneration, eGenerateDKG => Some (handleGenerateDKGEvt, [sRoundStart])
  | sRoundStart, eStartRound => Some (handleStartRoundEvt, [sInitPropose; sAcceptPropose])
  | sRoundStart, eFinishEpoch => Some (handleFinishEpochEvt, [sEpochStart; sRoundStart])
  | sInitPropose, eInitBlock => Some (handleInitBlockEvt, [sAcceptPropose])
  | sAcceptPropose, eProposeBlock =>
      Some (handleProposeBlockEvt, [sAcceptPropose; sAcceptProposalEndorse])
  | sAcceptPropose, eProposeBlockTimeout =>
      Some (handleProposeBlockTimeout, [sAcceptProposalEndorse])
  | sAcceptProposalEndorse, eEndorseProposal =>
      Some (handleEndorseProposalEvt, [sAcceptProposalEndorse; sAcceptCommitEndorse])
  | sAcceptProposalEndorse, eEndorseProposalTimeout =>
      Some (handleEndorseProposalTimeout, [sAcceptCommitEndorse])
  | sAcceptCommitEndorse, eEndorseCommit =>
      Some (handleEndorseCommitEvt, [sAcceptCommitEndorse; sRoundStart])
  | sAcceptCommitEndorse, eEndorseCommitTimeout =>
      Some (handleEndorseCommitTimeout, [sRoundStart])
  | sInvalid, _ => None
  | _, eBackdoor => Some (handleBackdoorEvt, consensusStates)
  | _, _ => None
  end.

(** The seed of the epoch of [m'] is that of [m], or it is empty. *)
Definition seedKept (m m' : @cFSM Chain BlockPb) : Prop :=
  ep_seed (epoch (ctx m')) = ep_seed (epoch (ctx m)) ∨ ep_seed (epoch (ctx m')) = [].





End FSMViews.

(** ** What a signature covers *)

(** The fields that the canonical byte stream covers. *)
Definition sameVote (en1 en2 : endorse) : Prop :=
  wrap64 (en_height en1) = wrap64 (en_height en2)
  ∧ en_topic en1 = en_topic en2
  ∧ en_blkHash en1 = en_blkHash en2
  ∧ en_decision en1 = en_decision en2.

(** ** [config]: the root configuration and its validation

    The sections of the root configuration that the validation functions
    read, beside the consensus options above; the names are those of the
    package [config]. *)
Module config.

Abbreviation ConsensusPart := Config.

(** The size of the event channel of Roll-DPoS; the dispatcher has an
    option of the same name. *)
Abbreviation RollDPoS_EventChanSize := EventChanSize.

Definition DelegateType : string := "delegate".
Definition FullNodeType : string := "full_node".
Definition LightweightType : string := "lightweight".

Record Network := {
  PeerDiscovery : bool;
  TopologyPath : string
}.

Record Chain := {
  ProducerPubKey : string;
  ProducerPrivKey : string;
  NumCandidates : Z
}.

Record ActPool := {
  MaxNumActsPerPool : Z;
  MaxNumActsPerAcct : Z
}.

Record Dispatcher := {
  EventChanSize : Z
}.

Record Explorer := {
  Enabled : bool;
  TpsWindow : Z
}.

(** The root configuration: the node type and the consensus options, as
    [Config] above has them, and the other sections. *)
Record Root := {
  Core : ConsensusPart;
  Network_ : Network;
  Chain_ : Chain;
  ActPool_ : ActPool;
  Dispatcher_ : Dispatcher;
  Explorer_ : Explorer
}.

(** [Validate] is the interface of validating the config. *)
Definition Validate : Type := Root → option error.

(** [ValidateChain] validates the chain configure. *)
Definition ValidateChain : Validate := λ cfg,
  if NumCandidates (Chain_ cfg) <=? 0 then
    Some (errors_Wrap ErrInvalidCfg "candidate number should be greater than 0")
  else if bool_decide (Scheme (Consensus_ (Core cfg)) = RollDPoSScheme)
          && (NumCandidates (Chain_ cfg)
              <? NumDelegates (RollDPoS_ (Consensus_ (Core cfg)))) then
    Some (errors_Wrap ErrInvalidCfg
            "candidate number should be greater than or equal to delegate number")
  else None.

(** [ValidateConsensusScheme] validates if scheme and node type match. *)
Definition ValidateConsensusScheme : Validate := λ cfg,
  if bool_decide (NodeType (Core cfg) = DelegateType) then None
  else if bool_decide (NodeType (Core cfg) = FullNodeType) then
    if negb (bool_decide (Scheme (Consensus_ (Core cfg)) = NOOPScheme)) then
      Some (errors_Wrap ErrInvalidCfg "consensus scheme of fullnode should be NOOP")
    else None
  else if bool_decide (NodeType (Core cfg) = LightweightType) then
    if negb (bool_decide (Scheme (Consensus_ (Core cfg)) = NOOPScheme)) then
      Some (errors_Wrap ErrInvalidCfg "consensus scheme of lightweight node should be NOOP")
    else None
  else Some (errors_Wrap ErrInvalidCfg ("unknown node type " +:+ NodeType (Core cfg))).

(** [ValidateDispatcher] validates the dispatcher configs. *)
Definition ValidateDispatcher : Validate := λ cfg,
  if EventChanSize (Dispatcher_ cfg) <=? 0 then
    Some (errors_Wrap ErrInvalidCfg "dispatcher event chan size should be greater than 0")
  else None.

(** [ValidateRollDPoS], on the root configuration. *)
Definition ValidateRollDPoS : Validate := λ cfg, ValidateRollDPoS (Core cfg).

(** [ValidateExplorer] validates the explorer configs. *)
Definition ValidateExplorer : Validate := λ cfg,
  if Enabled (Explorer_ cfg) && (TpsWindow (Explorer_ cfg) <=? 0) then
    Some (errors_Wrap ErrInvalidCfg
            "tps window is not a positive integer when the explorer is enabled")
  else None.

(** [ValidateNetwork] validates the network configs. *)
Definition ValidateNetwork : Validate := λ cfg,
  if negb (PeerDiscovery (Network_ cfg))
     && bool_decide (TopologyPath (Network_ cfg) = "") then
    Some (errors_Wrap ErrInvalidCfg
            "either peer discover should be enabled or a topology should be given")
  else None.

(** [ValidateActPool] validates the given config. *)
Definition ValidateActPool : Validate := λ cfg,
  let maxNumActPerPool := MaxNumActsPerPool (ActPool_ cfg) in
  let maxNumActPerAcct := MaxNumActsPerAcct (ActPool_ cfg) in
  if (maxNumActPerPool <=? 0) || (maxNumActPerAcct <=? 0) then
    Some (errors_Wrap ErrInvalidCfg
            "maximum number of actions per pool or per account cannot be zero or negative")
  else if maxNumActPerPool <? maxNumActPerAcct then
    Some (errors_Wrap ErrInvalidCfg
            "maximum number of actions per pool cannot be less than maximum number of actions per account")
  else None.

(** [DoNotValidate] validates the given config. *)
Definition DoNotValidate : Validate := λ _, None.

Section New.

(** The decoding of the keys and the loading of the YAML sources belong to
    other packages. *)
Context `{Cr : Crypto}.
Context (DecodePrivateKey : string → result PrivateKey).
Context (DecodePublicKey : string → result PublicKey).
Context {YAML : Type} (NewYAML : result YAML) (Populate : YAML → result Root).

Definition validationMsg : list byte :=
  String.list_byte_of_string "connecting the physical world block by block".

(** [ValidateKeyPair] validates the block producer address. *)
Definition ValidateKeyPair : Validate := λ cfg,
  match DecodePrivateKey (ProducerPrivKey (Chain_ cfg)) with
  | Err err => Some err
  | Ok priKey =>
      match DecodePublicKey (ProducerPubKey (Chain_ cfg)) with
      | Err err => Some err
      | Ok pubKey =>
          (* validate the keys by signing a dummy message and verifying it *)
          let sig := EC283_Sign priKey validationMsg in
          if negb (EC283_Verify pubKey validationMsg sig) then
            Some (errors_Wrap ErrInvalidCfg "block producer has unmatched pubkey and prikey")
          else None
      end
  end.

(** [Validates] is the collection of the config validation functions. *)
Definition Validates : list Validate :=
  [ ValidateKeyPair; ValidateConsensusScheme; ValidateRollDPoS; ValidateDispatcher;
    ValidateExplorer; ValidateNetwork; ValidateActPool; ValidateChain ].

(** The loop of [New] over the validation functions. *)
Fixpoint validateAll (validates : list Validate) (cfg : Root) : option error :=
  match validates with
  | [] => None
  | validate :: validates' =>
      match validate cfg with
      | Some err => Some (errors_Wrap err "failed to validate config")
      | None => validateAll validates' cfg
      end
  end.

(** [New] creates a config instance.  By default it applies all the
    validation functions. *)
Definition New (validates : list Validate) : result Root :=
  match NewYAML with
  | Err err => Err (errors_Wrap err "failed to init config")
  | Ok yaml =>
      match Populate yaml with
      | Err err => Err (errors_Wrap err "failed to unmarshal YAML config to struct")
      | Ok cfg =>
          let validates :=
            if bool_decide (length validates = 0%nat) then Validates else validates in
          match validateAll validates cfg with
          | Some err => Err err
          | None => Ok cfg
          end
      end
  end.

(** The key pair of the configuration decodes and matches. *)
Definition keyPairMatches (cfg : Root) : Prop :=
  ∃ priKey pubKey,
    DecodePrivateKey (ProducerPrivKey (Chain_ cfg)) = Ok priKey
    ∧ DecodePublicKey (ProducerPubKey (Chain_ cfg)) = Ok pubKey
    ∧ EC283_Verify pubKey validationMsg (EC283_Sign priKey validationMsg) = true.

(** The configurations that the validation functions of [Validates], key
    pair apart, let pass. *)
Definition wellFormed (cfg : Root) : Prop :=
  let consensus := Consensus_ (Core cfg) in
  let rolldpos := RollDPoS_ consensus in
  (NodeType (Core cfg) = DelegateType
   ∨ (NodeType (Core cfg) = FullNodeType ∨ NodeType (Core cfg) = LightweightType)
     ∧ Scheme consensus = NOOPScheme)
  ∧ (Scheme consensus = RollDPoSScheme →
     0 < RollDPoS_EventChanSize rolldpos ∧ 0 < NumDelegates rolldpos
     ∧ ¬ (EnableDummyBlock rolldpos = true ∧ TimeBasedRotation rolldpos = true)
     ∧ NumDelegates rolldpos ≤ NumCandidates (Chain_ cfg))
  ∧ 0 < EventChanSize (Dispatcher_ cfg)
  ∧ (Enabled (Explorer_ cfg) = true → 0 < TpsWindow (Explorer_ cfg))
  ∧ (PeerDiscovery (Network_ cfg) = true ∨ TopologyPath (Network_ cfg) ≠ "")
  ∧ 0 < MaxNumActsPerAcct (ActPool_ cfg) ≤ MaxNumActsPerPool (ActPool_ cfg)
  ∧ 0 < NumCandidates (Chain_ cfg).

End New.

End config.

(** ** [indexbuilder]: the tool that rebuilds the index by ranges of blocks *)

Module indexbuilder.

(** Go's [int64]: the sum of two of them wraps around. *)
Definition wrapInt64 (z : Z) : Z := (z + 2 ^ 63) `mod` 2 ^ 64 - 2 ^ 63.
Definition addInt64 (a b : Z) : Z := wrapInt64 (a + b).
Definition maxInt64 : Z := 2 ^ 63 - 1.

(** What the tool logs. *)
Inductive logEntry :=
| Finished (i endBlock : Z)
| Fatal (failedBlock : Z) (err : error).

Section main.

(** The explorer behind the proxy: [BuildIndexByRange] answers a range with
    the block it failed on and an error, and the service moves on. *)
Context {Explorer : Type}.
Context (BuildIndexByRange : Explorer → Z → Z → Z * option error * Explorer).

(** The flags of the command line. *)
Context (fromBlockID toBlockID batchSize retryLimit : Z).

(** A run of the tool so far: the service, the ranges it has been asked
    for, and the log. *)
Record run := {
  explorer : Explorer;
  calls : list (Z * Z);
  logged : list logEntry
}.

(** The inner loop, [for retry < retryLimit].  The result is [true] when
    the tool has logged the fatal error and returned.  [fuel] bounds the
    number of turns; [None] means the bound was reached. *)
Fixpoint retryLoop (fuel : nat) (retry startBlock endBlock : Z) (r : run)
    : option (bool * run) :=
  if retry <? retryLimit then
    match fuel with
    | O => None
    | S fuel' =>
        let '(failedBlock, err, explorer') :=
          BuildIndexByRange (explorer r) startBlock endBlock in
        let r' := {| explorer := explorer'; calls := calls r ++ [(startBlock, endBlock)];
                     logged := logged r |} in
        match err with
        | None => Some (false, r')
        | Some err =>
            let startBlock := failedBlock in
            let retry := retry + 1 in
            if retry =? retryLimit then
              Some (true, {| explorer := explorer r'; calls := calls r';
                             logged := logged r' ++ [Fatal failedBlock err] |})
            else retryLoop fuel' retry startBlock endBlock r'
        end
    end
  else Some (false, r).

(** The loop of [main],
    [for i := fromBlockID; i <= toBlockID; i += batchSize]. *)
Fixpoint batchLoop (fuel : nat) (i : Z) (r : run) : option run :=
  if i <=? toBlockID then
    match fuel with
    | O => None
    | S fuel' =>
        let startBlock := i in
        let endBlock := addInt64 (addInt64 startBlock batchSize) (-1) in
        let endBlock := if toBlockID <? endBlock then toBlockID else endBlock in
        match retryLoop (Z.to_nat retryLimit) 0 startBlock endBlock r with
        | None => None
        | Some (true, r') => Some r'
        | Some (false, r') =>
            batchLoop fuel' (addInt64 i batchSize)
              {| explorer := explorer r'; calls := calls r';
                 logged := logged r' ++ [Finished i endBlock] |}
        end
    end
  else Some r.

Definition main (fuel : nat) (e : Explorer) : option run :=
  batchLoop fuel fromBlockID {| explorer := e; calls := []; logged := [] |}.

(** The ranges [ranges] are consecutive and cover the blocks from [i] to
    [toBlockID] exactly, each with [batchSize] blocks at most. *)
Fixpoint tiles (i : Z) (ranges : list (Z * Z)) : Prop :=
  match ranges with
  | [] => toBlockID < i
  | (startBlock, endBlock) :: ranges' =>
      startBlock = i ∧ i ≤ endBlock ≤ toBlockID ∧ endBlock < i + batchSize
      ∧ tiles (endBlock + 1) ranges'
  end.

(** [n] calls in a row for the blocks up to [endBlock], the first from
    [startBlock] and each of the others from the block that the service
    reported as failed in its answer to the call before; each call comes
    with the answer of the service, the failed block and the error. *)
Fixpoint attempts (e : Explorer) (startBlock endBlock : Z) (n : nat)
    : list (Z * Z * (Z * option error)) :=
  match n with
  | O => []
  | S n' =>
      let '(failedBlock, err, e') := BuildIndexByRange e startBlock endBlock in
      (startBlock, endBlock, (failedBlock, err)) :: attempts e' failedBlock endBlock n'
  end.

End main.

End indexbuilder.

(** ** A concrete node, for running the definitions

    A chain is the list of its committed blocks; signatures are one byte. *)

Definition testCrypto : Crypto := {|
  blake2b_Sum256 := λ _, ZeroHash32B;
  EC283_Sign := λ _ _, [Byte.x01];
  EC283_Verify := λ _ _ sig, bool_decide (sig = [Byte.x01]);
  HashPubKey := λ pk, take 20 (vec_to_list pk);
  GetPubkeyHash := λ _, Ok (replicate 20 Byte.x00)
|}.

(** Modelled from the spec: [calcQuorum] is not among the sources.  Given a
    map from endorser address to decision and a committee of size [n], a
    decision has a quorum when at least [⌈2n/3⌉ + 1] endorsers took it
    (section 4.2). *)
Definition calcQuorum_spec (n : Z) (decisions : gmap string bool) : bool * bool :=
  let count (d : bool) :=
    Z.of_nat (length (filter (λ kv, kv.2 = d) (map_to_list decisions))) in
  let quorum := (2 * n + 2) `div` 3 + 1 in
  (quorum <=? count true, quorum <=? count false).

(** Modelled from the spec: [calcProposer] is not among the sources.
    Without time based rotation the proposer of height [h] is
    [D[(h - h0) mod |D|]] (section 4.1). *)
Definition calcProposer_spec (h0 h : Z) (delegates : list string) : result string :=
  match delegates !! Z.to_nat ((h - h0) `mod` Z.of_nat (length delegates)) with
  | Some d => Ok d
  | None => Err (errors_New "no delegate")
  end.

Definition testCollab : @Collab (list Block) Block := {|
  Degree := 1;
  BLS_Verify := λ _ _ sig,
    if bool_decide (sig = [Byte.x01]) then None else Some (errors_New "bad DKG signature");
  BLS_SignAggregate := λ _ sigs, Ok (concat sigs);
  BLS_VerifyAggregate := λ _ _ _ _, None;
  Block_VerifySignature := λ blk, bool_decide (blk_signature blk = [Byte.x01]);
  HashBlock := λ _, ZeroHash32B;
  IsDummyBlock := λ blk, bool_decide (blk_payload blk = []);
  ConvertToBlockPb := Some;
  ChainID := λ _, 1;
  ValidateBlock := λ _ _ _, None;
  CommitBlock := λ ch _, (ch, Some (errors_New "commit failed"));
  MintNewDummyBlock := λ ch,
    {| blk_Height := Z.of_nat (length ch) + 1; blk_ProducerAddress := "";
       blk_Timestamp := 0; blk_DKGID := []; blk_DKGPubkey := []; blk_DKGBlockSig := [];
       blk_signature := []; blk_payload := [] |};
  GetBlockByHeight := λ ch i,
    match ch !! Z.to_nat (i - 1) with
    | Some blk => Ok blk
    | None => Err (errors_New "block not found")
    end;
  Broadcast := λ _ _, None;
  calcEpochNumAndHeight := λ c,
    let n := NumDelegates (cfg c) * NumSubEpochs (cfg c) in
    let epochNum := Z.of_nat (length (chain c)) `div` n + 1 in
    Ok (epochNum, n * (epochNum - 1) + 1);
  rollingDelegates := λ c _, Ok (ep_delegates (epoch c));
  generateDKG := λ _, Ok [];
  rotatedProposer := λ c,
    match calcProposer_spec (ep_height (epoch c)) (Z.of_nat (length (chain c)) + 1)
            (ep_delegates (epoch c)) with
    | Ok p => Ok (p, Z.of_nat (length (chain c)) + 1)
    | Err e => Err e
    end;
  mintBlock := λ _, Err (errors_New "no actions");
  calcProposer := λ c h delegates, calcProposer_spec (ep_height (epoch c)) h delegates;
  calcQuorum := λ c decisions,
    calcQuorum_spec (Z.of_nat (length (ep_delegates (epoch c)))) decisions;
  isEpochFinished := λ _, Ok false;
  calcDurationSinceLastBlock := λ _, Ok 0
|}.

Definition key1 : PrivateKey := vreplicate ec283privKeyLength Byte.x01.

Definition nodeB : Address :=
  {| addr_PrivateKey := key1; addr_PublicKey := ZeroPublicKey; RawAddress := "B" |}.


Definition testRound : roundCtx :=
  {| rc_height := 5; rc_timestamp := 1000; rc_block := None;
     rc_proposalEndorses := ∅; rc_commitEndorses := ∅; rc_proposer := "A" |}.

Definition testEpoch : epochCtx :=
  {| ep_num := 2; ep_height := 5; ep_delegates := ["A"; "B"; "C"; "D"];
     ep_numSubEpochs := 1; ep_dkg := []; ep_seed := [] |}.

(** A block of height [h] produced by [producer], with or without DKG
    material. *)
Definition testBlock (h : Z) (producer : string) (dkg : bool) : Block :=
  {| blk_Height := h; blk_ProducerAddress := producer; blk_Timestamp := 900;
     blk_DKGID := if dkg then [Byte.x01] else [];
     blk_DKGPubkey := if dkg then [Byte.x01] else [];
     blk_DKGBlockSig := if dkg then [Byte.x01] else [];
     blk_signature := [Byte.x01]; blk_payload := [Byte.x2a] |}.

Definition testChain : list Block :=
  [testBlock 1 "A" true; testBlock 2 "B" false; testBlock 3 "C" true;
   testBlock 4 "D" true].

Definition testCfg (dummy : bool) : RollDPoS :=
  withRotation
    {| DelegateInterval := 10 * second; ProposerInterval := 10 * second;
       UnmatchedEventTTL := 3 * second; UnmatchedEventInterval := 100 * millisecond;
       RoundStartTTL := 10 * second; AcceptProposeTTL := second;
       AcceptProposalEndorseTTL := second; AcceptCommitEndorseTTL := second;
       Delay := 5 * second; NumSubEpochs := 1; EventChanSize := 10000;
       NumDelegates := 4; EnableDummyBlock := true; TimeBasedRotation := false |}
    dummy false.

Definition testCtx (node : Address) (dummy : bool) : @rollDPoSCtx (list Block) :=
  {| cfg := testCfg dummy; addr := node; chain := testChain; epoch := testEpoch;
     round := testRound; clock := 5000 * second |}.

Definition testFSM (s : State) (node : Address) (dummy : bool) : @cFSM (list Block) Block :=
  {| fsm_cur := s; evtq := []; delayed := []; ctx := testCtx node dummy; logs := [];
     sent := []; actPoolResets := 0; commits := [] |}.

Definition testEndorse (topic : bool) (height : Z) (endorser : string) (decision : bool)
    : endorse :=
  {| en_topic := topic; en_height := height; en_blkHash := ZeroHash32B;
     en_decision := decision; en_endorser := endorser;
     en_endorserPubkey := ZeroPublicKey; en_signature := [Byte.x01] |}.

(** The machine [m] with the events [q] waiting in its queue. *)
Definition queued (q : list iConsensusEvt) (m : @cFSM (list Block) Block)
    : @cFSM (list Block) Block :=
  {| fsm_cur := fsm_cur m; evtq := q; delayed := delayed m; ctx := ctx m;
     logs := logs m; sent := sent m; actPoolResets := actPoolResets m;
     commits := commits m |}.

(** The machine [m] whose round stores the block [blk]. *)
Definition storing (blk : Block) (m : @cFSM (list Block) Block)
    : @cFSM (list Block) Block :=
  set_ctx (set_round (set_block (Some blk) (round (ctx m))) (ctx m)) m.

Definition testEvt (t : EventType) (ts : Time) : consensusEvt :=
  {| evt_t := t; evt_ts := ts |}.

Abbreviation testM := (@cFSM (list Block) Block).

(** A timeout of time 500 waits in the queue of a round begun at time
    1000. *)
Definition mStale : testM :=
  queued [TimeoutEvt (testEvt eProposeBlockTimeout 500)] (testFSM sAcceptPropose nodeB true).

(** The block that node A, the proposer of height 5, proposes. *)
Definition blockA : Block := testBlock 5 "A" true.


(** A block of the wrong height reaches node B while its round stores the
    block of A. *)
Definition blockLate : Block := testBlock 4 "A" true.

Definition mStoring : testM := storing blockA (testFSM sAcceptPropose nodeB true).



(** A commit endorsement for height 77 reaches node B in a round of
    height 5 whose commit tally holds three [no] for the same block hash. *)
Definition strayCommit : endorse := testEndorse endorseCommit 77 "C" false.

Definition threeNo : gmap string bool := {["A" := false; "B" := false; "D" := false]}.

Definition mThreeNo : testM :=
  set_ctx (set_round (set_commitEndorses {[ZeroHash32B := threeNo]} testRound)
             (testCtx nodeB true))
          (testFSM sAcceptCommitEndorse nodeB true).

(** ** More of the concrete node *)








(** An endorsement as it may come from the wire: a topic that is neither
    [PROPOSAL] nor [COMMIT], a block hash of two bytes, and a signature. *)
Definition wirePb : EndorsePb :=
  {| pb_Height := 5; pb_BlockHash := [Byte.x0a; Byte.x0b]; pb_Topic := 7;
     pb_Endorser := "C"; pb_EndorserPubKey := replicate 72 Byte.x00;
     pb_Decision := true; pb_Signature := [Byte.x01] |}.

(** A root configuration: the default options of Roll-DPoS under the scheme
    Roll-DPoS, for the given node type. *)
Definition testRoot (nodeType : string) : config.Root :=
  {| config.Core :=
       {| NodeType := nodeType;
          Consensus_ := {| Scheme := RollDPoSScheme; RollDPoS_ := DefaultRollDPoS;
                           BlockCreationInterval := 10 * second |} |};
     config.Network_ := {| config.PeerDiscovery := true; config.TopologyPath := "" |};
     config.Chain_ := {| config.ProducerPubKey := ""; config.ProducerPrivKey := "";
                         config.NumCandidates := 101 |};
     config.ActPool_ := {| config.MaxNumActsPerPool := 32000;
                           config.MaxNumActsPerAcct := 2000 |};
     config.Dispatcher_ := {| config.EventChanSize := 10000 |};
     config.Explorer_ := {| config.Enabled := false; config.TpsWindow := 10 |} |}.

(** The keys of the concrete node, whatever the strings. *)
Definition testDecodePrivateKey : string → result PrivateKey := λ _, Ok key1.
Definition testDecodePublicKey : string → result PublicKey := λ _, Ok ZeroPublicKey.

(** [New] on a configuration that is already populated. *)
Definition testNew (cfg : config.Root) (validates : list config.Validate)
    : result config.Root :=
  config.New (Cr := testCrypto) testDecodePrivateKey testDecodePublicKey
    (Ok tt) (λ _, Ok cfg) validates.

(** Two explorer services, whose state counts the calls: one builds every
    range, the other builds one block of every range and fails on the
    next. *)
Definition goodService : nat → Z → Z → Z * option error * nat :=
  λ n startBlock endBlock, (endBlock, None, S n).

Definition slowService : nat → Z → Z → Z * option error * nat :=
  λ n startBlock endBlock,
    (Z.min (startBlock + 1) endBlock, Some (errors_New "index not built"), S n).

(** * Facts *)

(** ** Bytes and the little-endian encoding *)

Lemma byte_val_to_byte (v : Z) : byte_val (to_byte v) = v `mod` 256.
Proof.
  unfold byte_val, to_byte.
  assert (Hr : 0 ≤ v `mod` 256 < 256) by (apply Z.mod_pos_bound; lia).
  destruct (Byte.of_N (Z.to_N (v `mod` 256))) as [b|] eqn:E; simpl.
  - apply Byte.to_of_N in E. rewrite E. lia.
  - apply Byte.of_N_None_iff in E. lia.
Qed.

Lemma to_byte_mod (v : Z) : to_byte (v `mod` 256) = to_byte v.
Proof. unfold to_byte. by rewrite Z.mod_mod. Qed.

Lemma length_le_bytes (n : nat) (v : Z) : length (le_bytes n v) = n.
Proof. revert v. induction n as [|n IH]; intros v; simpl; [done|]. by rewrite IH. Qed.

Lemma le_value_le_bytes (n : nat) (v : Z) :
  le_value (le_bytes n v) = v `mod` 256 ^ Z.of_nat n.
Proof.
  revert v. induction n as [|n IH]; intros v.
  - simpl. by rewrite Z.mod_1_r.
  - cbn [le_bytes le_value]. rewrite byte_val_to_byte, IH, Z.mod_mod by lia.
    rewrite Nat2Z.inj_succ, Z.pow_succ_r by lia.
    rewrite Z.rem_mul_r by lia. done.
Qed.

Lemma PutUint64_make (v : Z) : PutUint64 (make 8) v = Some (le_bytes 8 v).
Proof.
  unfold PutUint64, make. simpl.
  rewrite !to_byte_mod, !Z.shiftr_div_pow2 by lia.
  rewrite !Z.div_div by lia. done.
Qed.

(** Nothing is copied into an empty (or nil) slice. *)
Lemma copy_nil_l (src : list byte) : copy [] src = [].
Proof. unfold copy. simpl. by rewrite drop_nil. Qed.

Lemma BytesToPublicKey_vec (pk : PublicKey) :
  BytesToPublicKey (vec_to_list pk) = (pk, None).
Proof.
  unfold BytesToPublicKey. rewrite length_vec_to_list.
  rewrite decide_False by (intros Hne; by apply Hne).
  by rewrite vcopy_vec_to_list.
Qed.

(** The encoding and the copy at small inputs. *)
Example PutUint64_example :
  PutUint64 (make 8) 0x0102030405060708
  = Some [Byte.x08; Byte.x07; Byte.x06; Byte.x05; Byte.x04; Byte.x03; Byte.x02; Byte.x01].
Proof. reflexivity. Qed.

Example PutUint64_short : PutUint64 (make 7) 1 = None.
Proof. reflexivity. Qed.

Example copy_shorter_src :
  copy [Byte.x01; Byte.x02; Byte.x03] [Byte.x0a; Byte.x0b]
  = [Byte.x0a; Byte.x0b; Byte.x03].
Proof. reflexivity. Qed.

Example copy_shorter_dst :
  copy [Byte.x01] [Byte.x0a; Byte.x0b] = [Byte.x0a].
Proof. reflexivity. Qed.

(** ** The endorsement *)

Section EndorseFacts.

Context `{Cr : Crypto}.

Lemma ByteStream_eq (en : endorse) : ByteStream en = Some (canonical_stream en).
Proof.
  unfold ByteStream, canonical_stream. rewrite PutUint64_make. simpl.
  unfold topic_byte, decision_byte, endorseCommit.
  destruct (en_topic en), (en_decision en); simpl; by rewrite <- ?(assoc_L (++)).
Qed.

Lemma Hash_eq (en : endorse) : Hash en = Some (blake2b_Sum256 (canonical_stream en)).
Proof. unfold Hash. by rewrite ByteStream_eq. Qed.

(** C8: the canonical byte stream of an endorsement is
    [height as 8 bytes little-endian | topic byte | 32-byte block hash |
    decision byte], 42 bytes in all, with Proposal = 0 and Commit = 1 and
    true = 1, false = 0; the hash for signature is BLAKE2b-256 of it. *)
Theorem ByteStream_canonical (en : endorse) :
  ByteStream en = Some (canonical_stream en)
  ∧ canonical_stream en
    = le_bytes 8 (en_height en) ++ [topic_byte (en_topic en)]
        ++ vec_to_list (en_blkHash en) ++ [decision_byte (en_decision en)]
  ∧ length (le_bytes 8 (en_height en)) = 8%nat
  ∧ le_value (le_bytes 8 (en_height en)) = wrap64 (en_height en)
  ∧ topic_byte endorseProposal = Byte.x00 ∧ topic_byte endorseCommit = Byte.x01
  ∧ decision_byte true = Byte.x01 ∧ decision_byte false = Byte.x00
  ∧ length (vec_to_list (en_blkHash en)) = 32%nat
  ∧ length (canonical_stream en) = 42%nat
  ∧ Hash en = Some (blake2b_Sum256 (canonical_stream en)).
Proof.
  split; [apply ByteStream_eq|]. split; [done|].
  split; [apply length_le_bytes|]. split; [apply le_value_le_bytes|].
  do 4 (split; [done|]). split; [apply length_vec_to_list|].
  split; [|apply Hash_eq].
  unfold canonical_stream.
  by rewrite !length_app, length_le_bytes, length_vec_to_list.
Qed.

End EndorseFacts.

(** Deserializing what [toProtoMsg] wrote, into a fresh record, restores
    every field but the signature, which is left empty. *)
Lemma roundtrip_eq (en : endorse) :
  roundtrip en =
    ({| en_topic := en_topic en; en_height := en_height en;
        en_blkHash := en_blkHash en; en_decision := en_decision en;
        en_endorser := en_endorser en; en_endorserPubkey := en_endorserPubkey en;
        en_signature := [] |}, None).
Proof.
  unfold roundtrip, fromProtoMsg, toProtoMsg.
  cbn [pb_Height pb_BlockHash pb_Topic pb_Endorser pb_EndorserPubKey pb_Decision
       pb_Signature].
  rewrite BytesToPublicKey_vec, vcopy_vec_to_list, copy_nil_l.
  by destruct (en_topic en).
Qed.

(** C3, at a signed endorsement: the round trip yields no error, yet the
    deserialized record is not the original: its signature is empty, and
    where the signature of the original verifies that of the deserialized
    record does not. *)
Theorem roundtrip_loses_signature :
  let en := testEndorse endorseCommit 5 "C" true in
  en_signature en = [Byte.x01]
  ∧ (roundtrip en).2 = None
  ∧ en_signature (roundtrip en).1 = []
  ∧ (roundtrip en).1 ≠ en
  ∧ VerifySignature (Cr := testCrypto) en ZeroPublicKey = Some true
  ∧ VerifySignature (Cr := testCrypto) (roundtrip en).1 ZeroPublicKey = Some false.
Proof.
  intros en. rewrite roundtrip_eq. split_and!; try done; by vm_compute.
Qed.

(** ** Configuration *)

Lemma ValidateRollDPoS_rotation (r : RollDPoS) :
  0 < EventChanSize r → 0 < NumDelegates r →
  ValidateRollDPoS (rolldposConfig r) = None
  ↔ ¬ (EnableDummyBlock r = true ∧ TimeBasedRotation r = true).
Proof.
  intros H1 H2. unfold ValidateRollDPoS. simpl.
  destruct (Z.leb_spec (EventChanSize r) 0); [lia|].
  destruct (Z.leb_spec (NumDelegates r) 0); [lia|].
  destruct (EnableDummyBlock r), (TimeBasedRotation r); simpl; intuition congruence.
Qed.

(** C4, evaluated: time based rotation without dummy blocks passes the
    validation; with both flags set the configuration is rejected. *)
Theorem ValidateRollDPoS_rotation_without_dummy :
  ValidateRollDPoS (rolldposConfig (withRotation DefaultRollDPoS false true)) = None
  ∧ ValidateRollDPoS (rolldposConfig (withRotation DefaultRollDPoS true true))
    = Some (errors_Wrap ErrInvalidCfg
              "roll-DPoS should enable dummy block when doing time based rotation").
Proof. by split. Qed.

(** ** The state machine *)

Section FSMFacts.

Context {Chain BlockPb : Type} `{Cr : !Crypto} `{Co : !@Collab Chain BlockPb}.

Implicit Types (m : @cFSM Chain BlockPb) (evt : iConsensusEvt) (c : consensusEvt)
  (ch : Chain).

Lemma handleEvt_stale c m :
  Before (evt_ts c) (rc_timestamp (round (ctx m))) = true →
  handleEvt (TimeoutEvt c) m = Some (tt, addLogs [(Debug, "timeoutEvt is stale")] m).
Proof.
  intros Hs. unfold handleEvt, bind, getCtx, timestamp. cbn [embedded]. by rewrite Hs.
Qed.

(** C2: a timeout event whose timestamp is strictly before the round
    timestamp is dropped by the worker before dispatch: the turn ends with
    the state of the FSM, the round and epoch contexts, the queue (but for
    the event taken) and all collaborators as they were; only the debug line
    is logged. *)
Theorem stale_timeout_dropped m c q :
  isTimeoutType (evt_t c) →
  evtq m = TimeoutEvt c :: q →
  evt_ts c < rc_timestamp (round (ctx m)) →
  ∃ m', Start_step m = Some (Some m')
    ∧ fsm_cur m' = fsm_cur m
    ∧ round (ctx m') = round (ctx m) ∧ epoch (ctx m') = epoch (ctx m)
    ∧ ctx m' = ctx m
    ∧ evtq m' = q ∧ delayed m' = delayed m
    ∧ sent m' = sent m ∧ commits m' = commits m
    ∧ actPoolResets m' = actPoolResets m
    ∧ logs m' = logs m ++ [(Debug, "timeoutEvt is stale")].
Proof.
  intros _ Hq Hlt. unfold Start_step. rewrite Hq.
  rewrite handleEvt_stale by (cbn; unfold Before; by apply Z.ltb_lt).
  eexists. split; [reflexivity|]. by cbn.
Qed.


Lemma notStale_test evt m :
  notStale evt m →
  (if evt is TimeoutEvt _ then Before (timestamp evt) (rc_timestamp (round (ctx m)))
   else false) = false.
Proof.
  destruct evt; try done. cbn. unfold Before, timestamp. cbn. intros. by apply Z.ltb_ge.
Qed.


(** *** The edges of the table that the claims use *)

Lemma edge_ProposeBlock :
  findTransition sAcceptPropose eProposeBlock
  = Some (handleProposeBlockEvt, [sAcceptPropose; sAcceptProposalEndorse]).
Proof. reflexivity. Qed.



#[local] Arguments processEndorseCommit : simpl never.
#[local] Arguments tally : simpl never.
#[local] Arguments validateProposeBlock : simpl never.
#[local] Arguments newEndorseEvt : simpl never.
#[local] Arguments Sign : simpl never.
#[local] Arguments newEndorseProposalEvt : simpl never.
#[local] Arguments ZeroPrivateKey : simpl never.
#[local] Arguments ZeroPublicKey : simpl never.
#[local] Arguments ZeroHash32B : simpl never.

(** Unfolding of the monad and of the primitive actions. *)
Ltac unfold_monad :=
  unfold bind, ret, getCtx, setRound, setEpoch, modifyCtx, logger, p2p_Broadcast,
    actPool_Reset, chain_CommitBlock, produceCEvt, newCEvt, newTimeoutEvt, produce in *.

(** *** Failure of the commit phase *)

Lemma processEndorseCommit_false m :
  ∃ m', processEndorseCommit false m = Some ((sRoundStart, None), m')
    ∧ fsm_cur m' = fsm_cur m
    ∧ evtq m' = evtq m ++ [finishEpochEvt m]
    ∧ delayed m' = delayed m
    ∧ round (ctx m') = round (ctx m) ∧ epoch (ctx m') = epoch (ctx m)
    ∧ dummyCommitted m m'.
Proof.
  unfold processEndorseCommit, dummyCommitted, finishEpochEvt. unfold_monad. cbn.
  destruct (EnableDummyBlock (cfg (ctx m))); cbn.
  - destruct (CommitBlock (chain (ctx m)) (MintNewDummyBlock (chain (ctx m))))
      as [ch [err|]] eqn:Hc; cbn;
      destruct (ConvertToBlockPb (MintNewDummyBlock (chain (ctx m)))) as [pb|]; cbn;
      try destruct (Broadcast _ _); cbn;
      (eexists; split; [reflexivity|]; by cbn).
  - eexists; split; [reflexivity|]; by cbn.
Qed.

Lemma processEndorseCommit_any (consensus : bool) m :
  ∃ m', processEndorseCommit consensus m = Some ((sRoundStart, None), m')
    ∧ fsm_cur m' = fsm_cur m
    ∧ evtq m' = evtq m ++ [finishEpochEvt m]
    ∧ round (ctx m') = round (ctx m).
Proof.
  destruct consensus.
  - unfold processEndorseCommit, finishEpochEvt. unfold_monad. cbn.
    destruct (rc_block (round (ctx m))) as [blk|]; cbn;
      [|eexists; split; [reflexivity|]; by cbn].
    destruct (CommitBlock (chain (ctx m)) blk) as [ch [err|]]; cbn;
      destruct (ConvertToBlockPb blk) as [pb|]; cbn;
      try destruct (Broadcast _ _); cbn;
      (eexists; split; [reflexivity|]; by cbn).
  - destruct (processEndorseCommit_false m) as (m' & -> & ? & ? & ? & ? & ?).
    eexists. by split_and!.
Qed.


Lemma tally_lookup (h : Hash32B) (a : string) (d : bool)
    (e : gmap Hash32B (gmap string bool)) :
  tally h a d e !! h = Some (<[a := d]> (default ∅ (e !! h))).
Proof. unfold tally. by rewrite lookup_insert_eq. Qed.

Lemma handleEndorseCommitEvt_run m c en :
  evt_t c = eEndorseCommit → en_topic en = endorseCommit →
  let m1 := set_ctx (withCommitEndorse en (ctx m)) m in
  handleEndorseCommitEvt (EndorseEvt c en) m
  = let '(yes, no) := calcQuorum (ctx m1) (commitDecisions en (ctx m)) in
    if negb yes && negb no then Some ((sAcceptCommitEndorse, None), m1)
    else processEndorseCommit (yes && negb no) m1.
Proof.
  intros Ht Htopic m1. unfold handleEndorseCommitEvt, evtType. cbn [embedded].
  rewrite Ht, Htopic, !bool_decide_eq_true_2 by done. cbn [negb].
  unfold_monad. cbn.
  rewrite tally_lookup. cbn [default from_option id]. fold (commitDecisions en (ctx m)).
  fold (withCommitEndorse en (ctx m)).
  change (set_ctx (withCommitEndorse en (ctx m)) m) with m1.
  change (withCommitEndorse en (ctx m)) with (ctx m1).
  destruct (calcQuorum (ctx m1) (commitDecisions en (ctx m))) as [yes no].
  by destruct (negb yes && negb no).
Qed.


Lemma handleEndorseProposalEvt_mismatch m c en :
  evt_t c = eEndorseProposal → en_topic en = endorseProposal →
  en_height en ≠ rc_height (round (ctx m)) →
  handleEndorseProposalEvt (EndorseEvt c en) m
  = Some ((sAcceptProposalEndorse, None),
          addLogs [(Error, "error when validating the endorse height")] m).
Proof.
  intros Ht Htopic Hh. unfold handleEndorseProposalEvt, evtType. cbn [embedded].
  rewrite Ht, bool_decide_eq_true_2 by done. cbn [negb].
  unfold validateEndorse. unfold_monad. cbn.
  rewrite Htopic, bool_decide_eq_true_2 by done. cbn.
  by rewrite bool_decide_eq_false_2.
Qed.

(** C9: the handler of [EndorseCommit] checks the topic only.  A commit
    endorsement is written into the commit tally of the round under its
    block hash and endorser, and the quorum is computed over the decisions
    so recorded, whatever its height; a proposal endorsement whose height
    is not that of the round is rejected and the round is left as it was. *)
Theorem commit_endorse_height_unchecked m c en :
  en_height en ≠ rc_height (round (ctx m)) →
  (evt_t c = eEndorseCommit → en_topic en = endorseCommit →
   ∃ st m', handleEndorseCommitEvt (EndorseEvt c en) m = Some ((st, None), m')
     ∧ rc_commitEndorses (round (ctx m')) !! en_blkHash en
       = Some (<[en_endorser en := en_decision en]>
                 (default ∅ (rc_commitEndorses (round (ctx m)) !! en_blkHash en)))
     ∧ st = (let '(yes, no) :=
               calcQuorum (withCommitEndorse en (ctx m)) (commitDecisions en (ctx m)) in
             if negb yes && negb no then sAcceptCommitEndorse else sRoundStart))
  ∧ (evt_t c = eEndorseProposal → en_topic en = endorseProposal →
     ∃ m', handleEndorseProposalEvt (EndorseEvt c en) m
           = Some ((sAcceptProposalEndorse, None), m')
       ∧ round (ctx m') = round (ctx m)).
Proof.
  intros Hh. split.
  - intros Ht Htopic. rewrite (handleEndorseCommitEvt_run _ _ _ Ht Htopic). cbn zeta.
    change (ctx (set_ctx (withCommitEndorse en (ctx m)) m))
      with (withCommitEndorse en (ctx m)).
    destruct (calcQuorum (withCommitEndorse en (ctx m)) (commitDecisions en (ctx m)))
      as [yes no].
    destruct (negb yes && negb no).
    + eexists _, _. split; [reflexivity|]. cbn. by rewrite tally_lookup.
    + destruct (processEndorseCommit_any (yes && negb no)
                  (set_ctx (withCommitEndorse en (ctx m)) m))
        as (m' & -> & _ & _ & Hr).
      eexists _, _. split; [reflexivity|]. rewrite Hr. cbn. by rewrite tally_lookup.
  - intros Ht Htopic. rewrite (handleEndorseProposalEvt_mismatch _ _ _ Ht Htopic Hh).
    eexists. by split.
Qed.

(** *** Proposals *)

Lemma nonempty_test (l : list byte) : (0 <? Z.of_nat (length l)) = true ↔ l ≠ [].
Proof. destruct l; cbn; [naive_solver|]. split; [done|]. intros _. by apply Z.ltb_lt; lia. Qed.

Lemma validateProposeBlock_run (blk : Block) (p : string) m :
  ∃ b l, validateProposeBlock blk p m = Some (b, addLogs l m)
    ∧ (b = true ↔ checksFor (ctx m) blk p).
Proof.
  assert (Hnil : addLogs [] m = m).
  { destruct m. unfold addLogs. cbn. by rewrite app_nil_r. }
  unfold validateProposeBlock, checksFor, verifyDKGSignature, carriesDKG.
  unfold_monad. cbn.
  case_bool_decide as Hh; cbn;
    [|eexists false, [_]; split; [reflexivity|]; intuition congruence].
  case_bool_decide as He; cbn;
    [eexists false, [_]; split; [reflexivity|]; intuition congruence|].
  case_bool_decide as Hp; cbn;
    [|eexists false, [_]; split; [reflexivity|]; intuition congruence].
  destruct (Block_VerifySignature blk) eqn:Hs; cbn;
    [|eexists false, [_]; split; [reflexivity|]; intuition congruence].
  case_bool_decide as Hself; cbn.
  { eexists true, []. rewrite Hnil. split; [reflexivity|]. intuition. }
  destruct (ValidateBlock (chain (ctx m)) blk true) as [e|] eqn:Hv; cbn.
  { eexists false, [_]; split; [reflexivity|]; intuition congruence. }
  destruct (0 <? Z.of_nat (length (blk_DKGPubkey blk))) eqn:H1; cbn.
  - destruct (0 <? Z.of_nat (length (blk_DKGBlockSig blk))) eqn:H2; cbn.
    + apply nonempty_test in H1, H2.
      destruct (BLS_Verify _ _ _) as [e|] eqn:Hb; cbn.
      * eexists false, [_]; split; [reflexivity|]. intuition congruence.
      * eexists true, []. rewrite Hnil. split; [reflexivity|]. intuition.
    + eexists true, []. rewrite Hnil. split; [reflexivity|].
      split; [|done]. intros _. split_and!; try done. right. split; [done|].
      intros [_ Hn]. apply nonempty_test in Hn. congruence.
  - eexists true, []. rewrite Hnil. split; [reflexivity|].
    split; [|done]. intros _. split_and!; try done. right. split; [done|].
    intros [Hn _]. apply nonempty_test in Hn. congruence.
Qed.

Lemma Sign_nonzero (en : endorse) (a : Address) :
  addr_PrivateKey a ≠ ZeroPrivateKey → Sign en a = Some (signed en a, None).
Proof.
  intros Hk. unfold Sign, signed. rewrite decide_False by done.
  by rewrite Hash_eq.
Qed.

Lemma Sign_zero (en : endorse) (a : Address) :
  addr_PrivateKey a = ZeroPrivateKey →
  Sign en a = Some (en, Some (errors_New "The endorser's private key is empty")).
Proof. intros Hk. unfold Sign. by rewrite decide_True. Qed.

(** An endorsement that comes back from the network has lost its
    signature: the event built from the wire form of [en] carries [en] with
    an empty signature. *)
Lemma newEndorseEvtWithEndorsePb_signature (en : endorse) m :
  ∃ c en', newEndorseEvtWithEndorsePb (toProtoMsg en) m = Some (Ok (EndorseEvt c en'), m)
    ∧ en_signature en' = []
    ∧ en_height en' = en_height en ∧ en_blkHash en' = en_blkHash en
    ∧ en_topic en' = en_topic en ∧ en_decision en' = en_decision en
    ∧ en_endorser en' = en_endorser en
    ∧ en_endorserPubkey en' = en_endorserPubkey en.
Proof.
  unfold newEndorseEvtWithEndorsePb. fold (roundtrip en). rewrite roundtrip_eq.
  unfold newEndorseEvtWithEndorse. unfold_monad.
  eexists _, _. split; [reflexivity|]. by cbn.
Qed.

Lemma newEndorseProposalEvt_nonzero (blkHash : Hash32B) m :
  addr_PrivateKey (addr (ctx m)) ≠ ZeroPrivateKey →
  let en := signed (proposalEndorse blkHash m) (addr (ctx m)) in
  newEndorseProposalEvt blkHash true m
  = Some (Ok (EndorseEvt {| evt_t := eEndorseProposal; evt_ts := clock (ctx m) |} en, en),
          m).
Proof.
  intros Hk en. unfold newEndorseProposalEvt, newEndorseEvt. unfold_monad. cbn.
  fold (proposalEndorse blkHash m). rewrite (Sign_nonzero _ _ Hk).
  unfold newEndorseEvtWithEndorse. unfold_monad. by cbn.
Qed.

Lemma newEndorseProposalEvt_zero (blkHash : Hash32B) m :
  addr_PrivateKey (addr (ctx m)) = ZeroPrivateKey →
  newEndorseProposalEvt blkHash true m
  = Some (Err (errors_New "The endorser's private key is empty"),
          addLogs [(Error, "failed to sign endorse for block")] m).
Proof.
  intros Hk. unfold newEndorseProposalEvt, newEndorseEvt. unfold_monad. cbn.
  by rewrite (Sign_zero _ _ Hk).
Qed.

(** The run of the handler of [ProposeBlock] on a proposal: it is rejected,
    or it passes the checks and the node cannot sign, or it is accepted. *)
Lemma handleProposeBlockEvt_run m c blk :
  evt_t c = eProposeBlock →
  let c0 := atValidation (ctx m) in
  ∃ st err m',
    handleProposeBlockEvt (ProposeBlkEvt c (Some blk)) m = Some ((st, err), m')
    ∧ fsm_cur m' = fsm_cur m
    ∧ ((¬ proposalChecks c0 blk
        ∧ match calcProposer c0 (blk_Height blk) (ep_delegates (epoch c0)) with
          | Ok _ => st = sAcceptPropose ∧ err = None
          | Err _ => is_Some err
          end
        ∧ rc_block (round (ctx m')) = None
        ∧ evtq m' = evtq m ∧ sent m' = sent m)
       ∨ (proposalChecks c0 blk
          ∧ addr_PrivateKey (addr (ctx m)) = ZeroPrivateKey
          ∧ is_Some err
          ∧ rc_block (round (ctx m')) = Some blk
          ∧ evtq m' = evtq m ∧ sent m' = sent m)
       ∨ (proposalChecks c0 blk
          ∧ addr_PrivateKey (addr (ctx m)) ≠ ZeroPrivateKey
          ∧ st = sAcceptProposalEndorse ∧ err = None
          ∧ storedAndEndorsed blk m m')).
Proof.
  intros Ht c0. unfold handleProposeBlockEvt, evtType. cbn [embedded].
  rewrite Ht, bool_decide_eq_true_2 by done. cbn [negb].
  unfold_monad. cbn. fold (atValidation (ctx m)). fold c0.
  unfold proposalChecks.
  change (epoch c0) with (epoch (ctx m)).
  destruct (calcProposer c0 (blk_Height blk) (ep_delegates (epoch (ctx m))))
    as [p|e] eqn:Hp.
  2:{ eexists _, _, _. split; [reflexivity|]. split; [done|]. left.
      split; [intros (? & ? & _); congruence|]. by split_and!. }
  destruct (validateProposeBlock_run blk p (set_ctx c0 m)) as (b & l & Hv & Hb).
  rewrite Hv. destruct b; cbn [negb].
  2:{ eexists _, _, _. split; [reflexivity|]. split; [done|]. left.
      split; [|by split_and!].
      intros (p' & Hp' & Hc). assert (p' = p) as -> by congruence.
      apply Hb in Hc. done. }
  assert (Hok : checksFor c0 blk p) by by apply Hb.
  assert (Hchecks : ∃ expected, Ok p = Ok expected ∧ checksFor c0 blk expected)
    by (by exists p).
  destruct (decide (addr_PrivateKey (addr (ctx m)) = ZeroPrivateKey)) as [Hk|Hk].
  - rewrite newEndorseProposalEvt_zero by done.
    eexists _, _, _. split; [reflexivity|]. split; [done|]. right. left.
    by split_and!.
  - rewrite newEndorseProposalEvt_nonzero by done. cbn.
    unfold moveToAcceptProposalEndorse. unfold_monad. cbn.
    destruct (Broadcast _ _); cbn;
      destruct (0 <? AcceptProposalEndorseTTL (cfg (ctx m))); cbn;
      (eexists _, _, _; split; [reflexivity|]; split; [done|]; right; right;
       split; [done|]; split; [done|]; split; [done|]; split; [done|];
       split; [done|]; eexists _, _, _; cbn; split_and!; try done;
       by rewrite <- ?(assoc_L (++))).
Qed.

(** One turn of the worker on a proposal, in [sAcceptPropose]. *)
Lemma propose_turn m c blk :
  fsm_cur m = sAcceptPropose →
  evt_t c = eProposeBlock →
  let c0 := atValidation (ctx m) in
  ∃ m', handleEvt (ProposeBlkEvt c (Some blk)) m = Some (tt, m')
    ∧ ((¬ proposalChecks c0 blk
        ∧ fsm_cur m' = sAcceptPropose ∧ rc_block (round (ctx m')) = None
        ∧ evtq m' = evtq m ∧ sent m' = sent m)
       ∨ (proposalChecks c0 blk
          ∧ addr_PrivateKey (addr (ctx m)) = ZeroPrivateKey
          ∧ fsm_cur m' = sAcceptPropose ∧ rc_block (round (ctx m')) = Some blk
          ∧ evtq m' = evtq m ∧ sent m' = sent m)
       ∨ (proposalChecks c0 blk
          ∧ addr_PrivateKey (addr (ctx m)) ≠ ZeroPrivateKey
          ∧ accepted blk m m')).
Proof.
  intros Hcur Ht c0.
  destruct (handleProposeBlockEvt_run m c blk Ht) as (st & err & m1 & Hrun & Hcur1 & Hcases).
  unfold handleEvt, bind, getCtx. cbn match.
  unfold fsm_Handle, evtType. cbn [embedded]. rewrite Hcur, Ht, edge_ProposeBlock, Hrun.
  unfold logger.
  destruct Hcases as [(Hn & Hres & Hb & Hq & Hs)|[(Hy & Hk & Herr & Hb & Hq & Hs)
                                                 |(Hy & Hk & -> & -> & Hb & Hex)]].
  - assert (Hst : is_Some err ∨ (st = sAcceptPropose ∧ err = None)).
    { destruct (calcProposer _ _ _); [by right|by left]. }
    destruct Hst as [[e ->]|[-> ->]]; cbn;
      (eexists; split; [reflexivity|]; left; cbn; split_and!; try done; congruence).
  - destruct Herr as [e ->]. cbn. eexists; split; [reflexivity|]. right; left. cbn.
    split_and!; try done; congruence.
  - cbn. eexists; split; [reflexivity|]. right; right.
    split; [done|]. split; [done|]. split; [done|]. split; [done|]. exact Hex.
Qed.


(** C10: the handler resets [round.block] before it validates.  When the
    checks fail, the turn of the worker leaves the FSM in [sAcceptPropose]
    with [round.block = nil], whatever block the round stored before; and
    when the expected proposer is known, the handler itself returns
    [sAcceptPropose] without error. *)
Theorem rejected_proposal_erases_block m c blk :
  fsm_cur m = sAcceptPropose →
  evt_t c = eProposeBlock →
  ¬ proposalChecks (atValidation (ctx m)) blk →
  (∃ m', handleEvt (ProposeBlkEvt c (Some blk)) m = Some (tt, m')
     ∧ fsm_cur m' = sAcceptPropose
     ∧ rc_block (round (ctx m')) = None)
  ∧ (∃ st err m1, handleProposeBlockEvt (ProposeBlkEvt c (Some blk)) m = Some ((st, err), m1)
       ∧ rc_block (round (ctx m1)) = None
       ∧ (∀ p, calcProposer (atValidation (ctx m)) (blk_Height blk)
                 (ep_delegates (epoch (atValidation (ctx m)))) = Ok p →
               st = sAcceptPropose ∧ err = None)).
Proof.
  intros Hcur Ht Hn. split.
  - destruct (propose_turn m c blk Hcur Ht) as (m' & Hrun & Hcases).
    exists m'. split; [done|].
    by destruct Hcases as [(_ & Hc & Hb & _)|[(Hy & _)|(Hy & _)]].
  - destruct (handleProposeBlockEvt_run m c blk Ht)
      as (st & err & m1 & Hrun & _ & Hcases).
    exists st, err, m1. split; [done|].
    destruct Hcases as [(_ & Hres & Hb & _)|[(Hy & _)|(Hy & _)]]; [|done|done].
    split; [done|]. intros p Hp. by rewrite Hp in Hres.
Qed.

(** *** Seed aggregation *)


Lemma wrap64_small (z : Z) : 0 ≤ z < 2 ^ 64 → wrap64 z = z.
Proof. intros. unfold wrap64. by apply Z.mod_small. Qed.

Lemma seedStartHeight_eq (c : @rollDPoSCtx Chain) (epochNum : Z) :
  seedStartHeight c epochNum
  = wrap64 (NumDelegates (cfg c) * NumSubEpochs (cfg c) * (epochNum - 2) + 1).
Proof.
  unfold seedStartHeight, add64, mul64, sub64, wrap64.
  rewrite Z.mul_mod_idemp_l, Z.mul_mod_idemp_r by lia.
  by rewrite Z.add_mod_idemp_l by lia.
Qed.

Lemma windowBlocks_nil ch (i endHeight : Z) :
  endHeight < i → windowBlocks ch i endHeight = [].
Proof. intros. unfold windowBlocks. by rewrite seqZ_nil by lia. Qed.

Lemma windowBlocks_cons ch (i endHeight : Z) :
  i ≤ endHeight →
  windowBlocks ch i endHeight
  = match GetBlockByHeight ch i with
    | Ok blk => blk :: windowBlocks ch (i + 1) endHeight
    | Err _ => windowBlocks ch (i + 1) endHeight
    end.
Proof.
  intros. unfold windowBlocks. rewrite seqZ_cons by lia. cbn.
  replace (Z.pred (endHeight - i + 1)) with (endHeight - (i + 1) + 1) by lia.
  replace (Z.succ i) with (i + 1) by lia.
  by destruct (GetBlockByHeight ch i).
Qed.

(** The loop selects the first blocks of the window that bear DKG
    material, as many as are still missing. *)
Lemma scanDKG_spec ch (endHeight : Z) (fuel : nat) :
  endHeight < 2 ^ 64 - 1 →
  ∀ (i : Z) (ids sigs pks : list (list byte)),
    0 ≤ i →
    (Z.to_nat (endHeight - i + 1) ≤ fuel)%nat →
    let sel := take (Z.to_nat (Degree + 1 - Z.of_nat (length ids)))
                 (filter (λ blk, bearsDKG blk = true) (windowBlocks ch i endHeight)) in
    scanDKG fuel ch i endHeight ids sigs pks
    = Some (ids ++ (blk_DKGID <$> sel), sigs ++ (blk_DKGBlockSig <$> sel),
            pks ++ (blk_DKGPubkey <$> sel)).
Proof.
  intros Hend. induction fuel as [|fuel IH]; intros i ids sigs pks Hi Hfuel sel.
  - assert (endHeight < i) by lia.
    subst sel. rewrite windowBlocks_nil by done. cbn.
    destruct (Z.leb_spec i endHeight); [lia|]. cbn.
    by rewrite take_nil, !app_nil_r.
  - cbn [scanDKG].
    destruct (Z.leb_spec i endHeight) as [Hle|Hgt]; cbn [andb].
    2:{ subst sel. rewrite windowBlocks_nil by done. cbn.
        by rewrite take_nil, !app_nil_r. }
    destruct (Z.ltb_spec (Z.of_nat (length ids)) (Degree + 1)) as [Hlt|Hge].
    2:{ subst sel. replace (Z.to_nat _) with 0%nat by lia.
        rewrite take_0. cbn. by rewrite !app_nil_r. }
    assert (Hnext : add64 i 1 = i + 1) by (apply wrap64_small; lia).
    rewrite Hnext. subst sel. rewrite (windowBlocks_cons ch i endHeight) by done.
    destruct (GetBlockByHeight ch i) as [blk|e].
    + destruct (bearsDKG blk) eqn:Hb.
      * rewrite IH by (try rewrite length_app; cbn; lia).
        rewrite filter_cons_True by done.
        rewrite length_app. cbn [length].
        replace (Z.to_nat (Degree + 1 - Z.of_nat (length ids)))
          with (S (Z.to_nat (Degree + 1 - Z.of_nat (length ids + 1)))) by lia.
        cbn [take fmap list_fmap]. by rewrite <- !(assoc_L (++)).
      * rewrite IH by lia. rewrite filter_cons_False by congruence. done.
    + by rewrite IH by lia.
Qed.

(** C5: [updateSeed] returns the empty seed, without error, for an epoch
    number of at most 1.  From epoch 2 on (the epoch height being a
    [uint64] of at least 1) it scans the heights from
    [numDelegates * numSubEpochs * (epochNum - 2) + 1] (in [uint64]
    arithmetic) to [epochHeight - 1] and takes the first [Degree + 1] blocks
    found there whose [DKGID], [DKGPubkey] and [DKGBlockSig] are all
    non-empty; given enough turns of its loop it returns: an error when
    fewer than [Degree + 1] such blocks exist, otherwise
    [BLS.SignAggregate] of their ids and signatures when the aggregate
    passes [BLS.VerifyAggregate] against the previous seed, and an error
    when it does not or when the aggregation itself fails. *)
Theorem updateSeed_spec m (epochNum epochHeight : Z) :
  calcEpochNumAndHeight (ctx m) = Ok (epochNum, epochHeight) →
  (epochNum ≤ 1 → ∀ fuel, updateSeed fuel m = Some ([], None))
  ∧ (2 ≤ epochNum → 0 < epochHeight < 2 ^ 64 →
     let startHeight :=
       wrap64 (NumDelegates (cfg (ctx m)) * NumSubEpochs (cfg (ctx m)) * (epochNum - 2) + 1) in
     let endHeight := epochHeight - 1 in
     let bearing :=
       filter (λ blk, bearsDKG blk = true)
         (windowBlocks (chain (ctx m)) startHeight endHeight) in
     let sel := take (Z.to_nat (Degree + 1)) bearing in
     let ids := blk_DKGID <$> sel in
     let sigs := blk_DKGBlockSig <$> sel in
     let pks := blk_DKGPubkey <$> sel in
     sel = selectedBlocks (chain (ctx m)) startHeight endHeight
     ∧ ∀ fuel, (Z.to_nat (endHeight - startHeight + 1) ≤ fuel)%nat →
         ∃ seed err, updateSeed fuel m = Some (seed, err)
           ∧ (Z.of_nat (length bearing) < Degree + 1 → seed = [] ∧ is_Some err)
           ∧ (Degree + 1 ≤ Z.of_nat (length bearing) →
              match BLS_SignAggregate ids sigs with
              | Ok aggregateSig =>
                  match BLS_VerifyAggregate ids pks (ep_seed (epoch (ctx m)))
                          aggregateSig with
                  | None => seed = aggregateSig ∧ err = None
                  | Some _ => seed = [] ∧ is_Some err
                  end
              | Err _ => seed = [] ∧ is_Some err
              end)).
Proof.
  intros Hcalc. split.
  - intros Hle fuel. unfold updateSeed. rewrite Hcalc.
    by destruct (Z.leb_spec epochNum 1); [|lia].
  - intros Hge Hh startHeight endHeight bearing sel ids sigs pks.
    split; [done|]. intros fuel Hfuel.
    unfold updateSeed. rewrite Hcalc.
    destruct (Z.leb_spec epochNum 1); [lia|].
    rewrite seedStartHeight_eq. fold startHeight.
    assert (Hend : seedEndHeight epochHeight = endHeight).
    { unfold seedEndHeight, sub64. apply wrap64_small. lia. }
    rewrite Hend.
    assert (0 ≤ startHeight < 2 ^ 64) by (apply Z.mod_pos_bound; lia).
    rewrite scanDKG_spec by (unfold endHeight; lia).
    cbn [length]. rewrite Z.sub_0_r, !app_nil_l.
    fold bearing. fold sel. fold ids. fold sigs. fold pks.
    assert (Hlen : Z.of_nat (length ids) < Degree + 1
                   ↔ Z.of_nat (length bearing) < Degree + 1).
    { unfold ids, sel. rewrite length_fmap, length_take. lia. }
    unfold aggregateSeed.
    destruct (Z.ltb_spec (Z.of_nat (length ids)) (Degree + 1)) as [Hlt|Hnlt].
    + eexists _, _. split; [reflexivity|]. split; [done|]. lia.
    + destruct (BLS_SignAggregate ids sigs) as [agg|e].
      * destruct (BLS_VerifyAggregate ids pks (ep_seed (epoch (ctx m))) agg) as [e|];
          (eexists _, _; split; [reflexivity|]; split; [lia|done]).
      * eexists _, _. split; [reflexivity|]. split; [lia|done].
Qed.

End FSMFacts.

(** ** Endorsements: signing, the signed bytes and the wire *)

Section EndorseMore.

Context `{Cr : Crypto}.

Lemma le_bytes_inj (n : nat) (v w : Z) :
  le_bytes n v = le_bytes n w → v `mod` 256 ^ Z.of_nat n = w `mod` 256 ^ Z.of_nat n.
Proof. intros H. by rewrite <- !le_value_le_bytes, H. Qed.

Lemma le_bytes_mod (n : nat) (v : Z) :
  le_bytes n (v `mod` 256 ^ Z.of_nat n) = le_bytes n v.
Proof.
  revert v. induction n as [|n IH]; intros v; [done|].
  cbn [le_bytes]. rewrite Nat2Z.inj_succ, Z.pow_succ_r by lia.
  assert (Hk : 0 < 256 ^ Z.of_nat n) by (apply Z.pow_pos_nonneg; lia).
  rewrite Z.rem_mul_r by lia.
  rewrite (Z.mul_comm 256 (_ `mod` _)).
  rewrite Z_mod_plus_full, Z.mod_mod by lia.
  rewrite Z.div_add by lia.
  rewrite (Z.div_small (v `mod` 256)) by (apply Z.mod_pos_bound; lia).
  by rewrite Z.add_0_l, IH.
Qed.

(** X17: what a signature covers.  Two endorsements have the same
    canonical byte stream, and so the same hash for signature, exactly when
    they agree on the height (as a 64-bit number), the topic, the block hash
    and the decision: the endorser, its public key and the signature are not
    part of the signed bytes, and none of the four covered fields can change
    without changing them. *)
Theorem ByteStream_same_iff (en1 en2 : endorse) :
  ByteStream en1 = ByteStream en2 ↔ sameVote en1 en2.
Proof.
  rewrite !ByteStream_eq. unfold canonical_stream, sameVote, wrap64. split.
  - intros H%(inj Some).
    apply app_inj_1 in H as [Hh H]; [|by rewrite !length_le_bytes].
    injection H as Ht H.
    apply app_inj_1 in H as [Hb H]; [|by rewrite !length_vec_to_list].
    injection H as Hd.
    split; [by apply (le_bytes_inj 8)|].
    split; [|split; [by apply vec_to_list_inj2|]].
    + unfold topic_byte, endorseCommit in Ht.
      by destruct (en_topic en1), (en_topic en2).
    + unfold decision_byte in Hd. by destruct (en_decision en1), (en_decision en2).
  - intros (Hh & -> & -> & ->). do 2 f_equal.
    rewrite <- (le_bytes_mod 8 (en_height en1)), <- (le_bytes_mod 8 (en_height en2)).
    by f_equal.
Qed.

(** The hash for signature of an endorsement is that of the endorsement
    before [Sign] filled in the endorser, the key and the signature. *)
Lemma Hash_signed (en : endorse) (a : Address) : Hash (signed en a) = Hash en.
Proof. by rewrite !Hash_eq. Qed.

(** X16: a signature made by [Sign] is one that [VerifySignature] accepts.
    When the endorser has a private key, its address encodes the hash of its
    public key, and the signature scheme verifies with the public key what
    it signed with the private key, then [Sign] succeeds and the signed
    endorsement verifies against the public key of the endorser. *)
Theorem Sign_then_VerifySignature (en : endorse) (a : Address) :
  addr_PrivateKey a ≠ ZeroPrivateKey →
  GetPubkeyHash (RawAddress a) = Ok (HashPubKey (addr_PublicKey a)) →
  (∀ msg, EC283_Verify (addr_PublicKey a) msg (EC283_Sign (addr_PrivateKey a) msg) = true) →
  ∃ en', Sign en a = Some (en', None)
    ∧ sameVote en' en
    ∧ en_endorser en' = RawAddress a
    ∧ VerifySignature en' (addr_PublicKey a) = Some true.
Proof.
  intros Hk Ha Hv. exists (signed en a). split; [by apply Sign_nonzero|].
  split; [done|]. split; [done|].
  unfold VerifySignature. cbn [en_endorser signed]. rewrite Ha.
  rewrite bool_decide_eq_true_2 by done. cbn [negb].
  rewrite Hash_signed, Hash_eq. cbn. by rewrite Hv.
Qed.

End EndorseMore.

(** [copy] into an array is [copy] into the slice of its elements. *)
Lemma vcopy_copy {n : nat} (dst : vec byte n) (src : list byte) :
  vec_to_list (vcopy dst src) = copy (vec_to_list dst) src.
Proof.
  unfold copy. revert src. induction dst as [|d n dst IH]; intros src.
  - cbn. by rewrite drop_nil.
  - destruct src as [|s src]; cbn; [done|]. by rewrite IH.
Qed.

Lemma vcopy_zero_padded (src : list byte) :
  vec_to_list (vcopy ZeroHash32B src) = take 32 (src ++ replicate 32 Byte.x00).
Proof.
  rewrite vcopy_copy. unfold copy, ZeroHash32B.
  rewrite vec_to_list_replicate, length_replicate, drop_replicate.
  rewrite take_app, take_replicate. do 2 f_equal. lia.
Qed.

Section ReceivedEndorse.

Context {Chain BlockPb : Type}.

(** X18: what is taken from the wire as it comes.  Whenever the public key
    of a received endorsement parses, [newEndorseEvtWithEndorsePb] makes an
    event of it without an error: a topic that is not [COMMIT] counts as
    [PROPOSAL], whatever its number; the block hash is the first 32 bytes of
    the field, padded with zeros when it is shorter; the height, the
    decision and the endorser are copied; and the signature is dropped. *)
Theorem received_endorse_as_it_comes (ePb : EndorsePb) (pubKey : PublicKey)
    (m : @cFSM Chain BlockPb) :
  BytesToPublicKey (pb_EndorserPubKey ePb) = (pubKey, None) →
  ∃ en,
    newEndorseEvtWithEndorsePb ePb m
    = Some (Ok (EndorseEvt
                  {| evt_t := if bool_decide (pb_Topic ePb = EndorsePb_COMMIT)
                              then eEndorseCommit else eEndorseProposal;
                     evt_ts := clock (ctx m) |} en), m)
    ∧ en_topic en = bool_decide (pb_Topic ePb = EndorsePb_COMMIT)
    ∧ vec_to_list (en_blkHash en) = take 32 (pb_BlockHash ePb ++ replicate 32 Byte.x00)
    ∧ en_height en = pb_Height ePb
    ∧ en_decision en = pb_Decision ePb
    ∧ en_endorser en = pb_Endorser ePb
    ∧ en_endorserPubkey en = pubKey
    ∧ en_signature en = [].
Proof.
  intros Hpk. unfold newEndorseEvtWithEndorsePb, fromProtoMsg. rewrite Hpk.
  cbn [endorse_zero en_blkHash en_topic en_signature].
  rewrite copy_nil_l.
  unfold newEndorseEvtWithEndorse, bind, newCEvt, getCtx, ret.
  cbn [en_topic].
  eexists. split.
  - f_equal. f_equal. f_equal. f_equal. f_equal.
    unfold endorseProposal, endorseCommit, EndorsePb_PROPOSAL, EndorsePb_COMMIT.
    repeat case_decide; repeat case_bool_decide; try done; lia.
  - cbn. split_and!; try done.
    + unfold endorseProposal, endorseCommit, EndorsePb_PROPOSAL, EndorsePb_COMMIT.
      repeat case_decide; repeat case_bool_decide; try done; lia.
    + apply vcopy_zero_padded.
Qed.

End ReceivedEndorse.

(** ** The worker and the handlers *)

Section FSMMore.
Context {Chain BlockPb : Type} `{Cr : !Crypto} `{Co : !@Collab Chain BlockPb}.
Implicit Types (m : @cFSM Chain BlockPb) (evt : iConsensusEvt) (c : consensusEvt).

Local Abbreviation MM := (@M Chain BlockPb).

#[local] Arguments Sign : simpl never.
#[local] Arguments ZeroPrivateKey : simpl never.
#[local] Arguments ZeroPublicKey : simpl never.
#[local] Arguments ZeroHash32B : simpl never.

Lemma grows_refl m : grows m m.
Proof. by unfold grows. Qed.

Lemma grows_trans m1 m2 m3 : grows m1 m2 → grows m2 m3 → grows m1 m3.
Proof.
  unfold grows. intros (?&?&?&?&?&?&?&?&?) (?&?&?&?&?&?&?&?&?).
  split_and!; first [by etrans | congruence | lia].
Qed.

Ltac grows_prim :=
  intros m; eexists _, _; split; [reflexivity|]; split; [done|]; split; [|done];
  unfold grows; cbn; split_and!; first [done | by apply prefix_app_r | lia].

Lemma keeps_ret {A} (a : A) (Q : A → Prop) : Q a → keeps (ret a : MM A) Q.
Proof. intros HQ m. exists a, m. split; [done|]. split; [done|]. split; [apply grows_refl|done]. Qed.

Lemma keeps_bind {A B} (x : MM A) (f : A → MM B) (Q : B → Prop) :
  keeps x (λ _, True) → (∀ a, keeps (f a) Q) → keeps (bind x f) Q.
Proof.
  intros Hx Hf m. destruct (Hx m) as (a & m1 & Hr & Hc & Hg & _).
  destruct (Hf a m1) as (b & m2 & Hr2 & Hc2 & Hg2 & HQ).
  exists b, m2. unfold bind. rewrite Hr. split; [done|]. split; [congruence|].
  split; [by eapply grows_trans|done].
Qed.

Lemma keeps_weaken {A} (x : MM A) (Q Q' : A → Prop) :
  keeps x Q → (∀ a, Q a → Q' a) → keeps x Q'.
Proof.
  intros Hx HQ m. destruct (Hx m) as (a & m' & ? & ? & ? & ?). exists a, m'. auto.
Qed.

Lemma keeps_getCtx : keeps (getCtx : MM _) (λ _, True).
Proof. grows_prim. Qed.

Lemma keeps_setRound r : keeps (setRound r : MM _) (λ _, True).
Proof. grows_prim. Qed.

Lemma keeps_setEpoch e : keeps (setEpoch e : MM _) (λ _, True).
Proof. grows_prim. Qed.

Lemma keeps_logger lvl msg : keeps (logger lvl msg : MM _) (λ _, True).
Proof. grows_prim. Qed.

Lemma keeps_p2p_Broadcast (msg : @pbMsg BlockPb) : keeps (p2p_Broadcast msg) (λ _, True).
Proof. grows_prim. Qed.

Lemma keeps_actPool_Reset : keeps (actPool_Reset : MM _) (λ _, True).
Proof. grows_prim. Qed.

Lemma keeps_chain_CommitBlock blk : keeps (chain_CommitBlock blk) (λ _, True).
Proof.
  intros m. unfold chain_CommitBlock. destruct (CommitBlock _ _) as [ch err].
  revert m. grows_prim.
Qed.

Lemma keeps_produce evt delay : keeps (produce evt delay : MM _) (λ _, True).
Proof. intros m. unfold produce. destruct (0 <? delay); revert m; grows_prim. Qed.

Lemma keeps_newCEvt t : keeps (newCEvt t : MM _) (λ _, True).
Proof. grows_prim. Qed.

Lemma Sign_total (en : endorse) (a : Address) : ∃ r, Sign en a = Some r.
Proof.
  unfold Sign. destruct (decide _); [by eexists|].
  unfold Hash, ByteStream.
  assert (Hp : ∃ s, PutUint64 (make 8) (en_height en) = Some s) by (by eexists).
  destruct Hp as [s ->]. by eexists.
Qed.

Ltac keeps_step :=
  first
    [ apply keeps_getCtx | apply keeps_setRound | apply keeps_setEpoch | apply keeps_logger
    | apply keeps_p2p_Broadcast | apply keeps_actPool_Reset
    | apply keeps_chain_CommitBlock | apply keeps_produce | apply keeps_newCEvt
    | apply keeps_bind; [ | intros ? ]
    | match goal with
      | |- keeps (match ?x with _ => _ end) _ => destruct x
      | |- keeps (if ?x then _ else _) _ => destruct x
      end
    | apply keeps_ret ].

Ltac keeps_tac :=
  unfold produceCEvt, newTimeoutEvt, newProposeBlkEvt,
    newEndorseEvtWithEndorse, isDelegate;
  repeat keeps_step.

Lemma keeps_newEndorseEvt topic (blkHash : Hash32B) decision height endorser :
  keeps (newEndorseEvt topic blkHash decision height endorser : MM _) (λ _, True).
Proof.
  unfold newEndorseEvt.
  match goal with |- context [Sign ?en ?a] => destruct (Sign_total en a) as [[en' err] ->] end.
  keeps_tac; done.
Qed.

Lemma keeps_produceStartRoundEvt : keeps (produceStartRoundEvt : MM _) (λ _, True).
Proof. unfold produceStartRoundEvt. keeps_tac; done. Qed.

Lemma keeps_validateProposeBlock blk p :
  keeps (validateProposeBlock blk p : MM _) (λ _, True).
Proof. unfold validateProposeBlock. keeps_tac; done. Qed.

Lemma keeps_validateEndorse en t : keeps (validateEndorse en t : MM _) (λ _, True).
Proof. unfold validateEndorse. keeps_tac; done. Qed.

Ltac keeps_handler :=
  unfold moveToAcceptProposalEndorse, moveToAcceptCommitEndorse, newEndorseProposalEvt,
    newEndorseCommitEvt, processEndorseCommit;
  unfold produceCEvt, newTimeoutEvt, newProposeBlkEvt,
    newEndorseEvtWithEndorse, isDelegate;
  repeat first
    [ apply keeps_newEndorseEvt | apply keeps_produceStartRoundEvt
    | apply keeps_validateProposeBlock | apply keeps_validateEndorse
    | keeps_step ];
  cbn; intros; try done; try (rewrite !elem_of_cons; tauto).

Lemma keeps_handleRollDelegatesEvt evt :
  keeps (handleRollDelegatesEvt evt : MM _)
    (λ r, r.2 = None → r.1 ∈ [sEpochStart; sDKGGeneration]).
Proof. unfold handleRollDelegatesEvt. keeps_handler. Qed.

Lemma keeps_handleGenerateDKGEvt evt :
  keeps (handleGenerateDKGEvt evt : MM _) (λ r, r.2 = None → r.1 ∈ [sRoundStart]).
Proof. unfold handleGenerateDKGEvt. keeps_handler. Qed.

Lemma keeps_handleStartRoundEvt evt :
  keeps (handleStartRoundEvt evt : MM _)
    (λ r, r.2 = None → r.1 ∈ [sInitPropose; sAcceptPropose]).
Proof. unfold handleStartRoundEvt. keeps_handler. Qed.

Lemma keeps_handleFinishEpochEvt evt :
  keeps (handleFinishEpochEvt evt : MM _)
    (λ r, r.2 = None → r.1 ∈ [sEpochStart; sRoundStart]).
Proof. unfold handleFinishEpochEvt. keeps_handler. Qed.

Lemma keeps_handleInitBlockEvt evt :
  keeps (handleInitBlockEvt evt : MM _) (λ r, r.2 = None → r.1 ∈ [sAcceptPropose]).
Proof. unfold handleInitBlockEvt, proposeBlkEvt_toProtoMsg. keeps_handler. Qed.

Lemma keeps_handleProposeBlockEvt evt :
  hasBlock evt →
  keeps (handleProposeBlockEvt evt : MM _)
    (λ r, r.2 = None → r.1 ∈ [sAcceptPropose; sAcceptProposalEndorse]).
Proof.
  intros Hb. unfold handleProposeBlockEvt.
  destruct evt as [c|c [blk|]|c en|c|c dst]; cbn in Hb; try contradiction; keeps_handler.
Qed.

(** On a proposal without a block the handler returns only when it refuses
    the type of the event, before it looks at the block. *)
Lemma handleProposeBlockEvt_nil c m r m' :
  handleProposeBlockEvt (ProposeBlkEvt c None) m = Some (r, m') → m' = m ∧ r.2 ≠ None.
Proof.
  unfold handleProposeBlockEvt. destruct (negb _); cbn; [|discriminate].
  by intros [= <- <-].
Qed.

Lemma hasBlock_cases evt : hasBlock evt ∨ ∃ c, evt = ProposeBlkEvt c None.
Proof. destruct evt as [c|c [blk|]|c en|c|c dst]; cbn; eauto. Qed.

Lemma keeps_handleProposeBlockTimeout evt :
  keeps (handleProposeBlockTimeout evt : MM _)
    (λ r, r.2 = None → r.1 ∈ [sAcceptProposalEndorse]).
Proof. unfold handleProposeBlockTimeout. keeps_handler. Qed.

Lemma keeps_handleEndorseProposalEvt evt :
  keeps (handleEndorseProposalEvt evt : MM _)
    (λ r, r.2 = None → r.1 ∈ [sAcceptProposalEndorse; sAcceptCommitEndorse]).
Proof. unfold handleEndorseProposalEvt. keeps_handler. Qed.

Lemma keeps_handleEndorseProposalTimeout evt :
  keeps (handleEndorseProposalTimeout evt : MM _)
    (λ r, r.2 = None → r.1 ∈ [sAcceptCommitEndorse]).
Proof. unfold handleEndorseProposalTimeout. keeps_handler. Qed.

Lemma keeps_handleEndorseCommitEvt evt :
  keeps (handleEndorseCommitEvt evt : MM _)
    (λ r, r.2 = None → r.1 ∈ [sAcceptCommitEndorse; sRoundStart]).
Proof. unfold handleEndorseCommitEvt. keeps_handler. Qed.

Lemma keeps_handleEndorseCommitTimeout evt :
  keeps (handleEndorseCommitTimeout evt : MM _) (λ r, r.2 = None → r.1 ∈ [sRoundStart]).
Proof. unfold handleEndorseCommitTimeout. keeps_handler. Qed.

Lemma keeps_handleBackdoorEvt evt :
  keeps (handleBackdoorEvt evt : MM _) (λ _, True).
Proof. unfold handleBackdoorEvt. keeps_handler. Qed.

(** The table of [newConsensusFSM] has one edge for each pair of a state
    and an event type at most, and the lookup finds it. *)
Lemma findTransition_edge (src : State) (t : EventType) :
  findTransition src t = edge src t.
Proof. destruct src, t; reflexivity. Qed.

Lemma transitions_keys_NoDup :
  NoDup (map (λ tr : State * EventType * handler * list State, (tr.1.1.1, tr.1.1.2))
           (transitions (Chain := Chain) (BlockPb := BlockPb))).
Proof. apply (bool_decide_unpack _). by vm_compute. Qed.

Lemma edge_dsts (src : State) (t : EventType) (h : handler) (dsts : list State) :
  findTransition src t = Some (h, dsts) → ∀ dst, dst ∈ dsts → dst ∈ consensusStates.
Proof.
  rewrite findTransition_edge. intros He dst Hd.
  destruct src, t; cbn in He; simplify_eq; try done;
    unfold consensusStates; rewrite !elem_of_cons in *; tauto.
Qed.

Lemma edge_keeps (src : State) (t : EventType) (h : handler) (dsts : list State) evt :
  findTransition src t = Some (h, dsts) →
  (t = eProposeBlock → hasBlock evt) →
  keeps (h evt : MM _) (λ r, t ≠ eBackdoor → r.2 = None → r.1 ∈ dsts).
Proof.
  rewrite findTransition_edge. intros He Hb.
  destruct src, t; cbn in He; simplify_eq;
    try (eapply keeps_weaken; [apply keeps_handleBackdoorEvt|by intros ? _ ?]);
    (eapply keeps_weaken;
     [first [ apply keeps_handleRollDelegatesEvt | apply keeps_handleGenerateDKGEvt
            | apply keeps_handleStartRoundEvt | apply keeps_handleFinishEpochEvt
            | apply keeps_handleInitBlockEvt | by apply keeps_handleProposeBlockEvt, Hb
            | apply keeps_handleProposeBlockTimeout | apply keeps_handleEndorseProposalEvt
            | apply keeps_handleEndorseProposalTimeout | apply keeps_handleEndorseCommitEvt
            | apply keeps_handleEndorseCommitTimeout ]
     | by intros ? ? _ ]).
Qed.

(** What a handler of the table has done when it returns, on any event. *)
Lemma edge_returned (src : State) (t : EventType) (h : handler) (dsts : list State)
    evt m r m' :
  findTransition src t = Some (h, dsts) →
  h evt m = Some (r, m') →
  fsm_cur m' = fsm_cur m ∧ grows m m' ∧ (t ≠ eBackdoor → r.2 = None → r.1 ∈ dsts).
Proof.
  intros He Hh.
  assert (Hk : (t = eProposeBlock → hasBlock evt) →
               fsm_cur m' = fsm_cur m ∧ grows m m'
               ∧ (t ≠ eBackdoor → r.2 = None → r.1 ∈ dsts)).
  { intros Hb. destruct (edge_keeps src t h dsts evt He Hb m) as (r1 & m1 & Hr & ? & ? & ?).
    rewrite Hr in Hh. by simplify_eq. }
  destruct (hasBlock_cases evt) as [Hb|[c ->]]; [by apply Hk|].
  destruct (decide (t = eProposeBlock)) as [->|Hne]; [|by apply Hk].
  rewrite findTransition_edge in He. destruct src; cbn in He; simplify_eq.
  apply handleProposeBlockEvt_nil in Hh as [-> Hr].
  split; [done|]. split; [apply grows_refl|]. by intros _ ?.
Qed.

(** X1: what every handler of the table has done when it returns, on any
    event and machine and whatever the collaborators answer: it has left the
    current state to the FSM, it has only added to the machine, and, when
    it reports no error, its result is one of the destinations declared for
    its edge (the backdoor apart, whose destination is the event's).  That
    the handler returns is not part of the statement: on a proposal whose
    block is [nil] [handleProposeBlockEvt] does not. *)
Theorem handlers_return_declared (src : State) (t : EventType) (h : handler)
    (dsts : list State) evt m dst err m' :
  findTransition src t = Some (h, dsts) →
  t ≠ eBackdoor →
  h evt m = Some ((dst, err), m') →
  fsm_cur m' = fsm_cur m
  ∧ grows m m'
  ∧ (err = None → dst ∈ dsts).
Proof.
  intros He Ht Hh.
  destruct (edge_returned src t h dsts evt m (dst, err) m' He Hh) as (? & ? & HQ).
  split; [done|]. split; [done|]. by apply HQ.
Qed.




(** The worker on a proposal without a block: in [sAcceptPropose], where the
    proposal has its edge, the turn ends in the [nil] dereference of
    [handleProposeBlockEvt]. *)
Lemma handleEvt_nil_block c m :
  fsm_cur m = sAcceptPropose →
  evt_t c = eProposeBlock →
  handleEvt (ProposeBlkEvt c None) m = None.
Proof.
  intros Hc Ht. unfold handleEvt, bind, getCtx. cbn.
  unfold fsm_Handle, evtType. cbn. rewrite Hc, Ht. cbn.
  rewrite findTransition_edge. cbn.
  unfold handleProposeBlockEvt, evtType. cbn. rewrite Ht. reflexivity.
Qed.




(** A turn of the worker on an event that has an edge. *)
Lemma handleEvt_edge evt m (h : handler) (dsts : list State) dst m1 :
  notStale evt m →
  findTransition (fsm_cur m) (evtType evt) = Some (h, dsts) →
  h evt m = Some ((dst, None), m1) →
  dst ∈ dsts →
  handleEvt evt m
  = Some (tt, addLogs [(Debug, "consensusEvt state transition happens")] (set_cur dst m1)).
Proof.
  intros Hn He Hh Hd. unfold handleEvt, bind, getCtx.
  rewrite (notStale_test evt m Hn). unfold fsm_Handle. rewrite He, Hh.
  by rewrite bool_decide_eq_true_2.
Qed.


Lemma handleEvt_invalid_dst evt m (h : handler) (dsts : list State) dst m1 :
  notStale evt m →
  findTransition (fsm_cur m) (evtType evt) = Some (h, dsts) →
  h evt m = Some ((dst, None), m1) →
  dst ∉ dsts →
  handleEvt evt m
  = Some (tt, addLogs [(Error, "consensusEvt state transition fails")] m1).
Proof.
  intros Hn He Hh Hd. unfold handleEvt, bind, getCtx.
  rewrite (notStale_test evt m Hn). unfold fsm_Handle. rewrite He, Hh.
  by rewrite bool_decide_eq_false_2.
Qed.

(** X4: the backdoor.  The event that [newBackdoorEvt] makes for a
    destination moves the FSM from any consensus state into any consensus
    state, and changes nothing else but the log; for the destination
    [sInvalid] the FSM refuses the transition and stays where it is. *)
Theorem backdoor_moves_anywhere (dst : State) m :
  fsm_cur m ∈ consensusStates →
  bind (newBackdoorEvt dst) handleEvt m
  = Some (tt,
      if bool_decide (dst = sInvalid) then
        addLogs [(Error, "consensusEvt state transition fails")] m
      else addLogs [(Debug, "consensusEvt state transition happens")] (set_cur dst m)).
Proof.
  intros Hin. unfold newBackdoorEvt, newCEvt, bind, getCtx, ret.
  set (evt := BackdoorEvt _ dst).
  assert (He : findTransition (fsm_cur m) (evtType evt)
               = Some (handleBackdoorEvt, consensusStates)).
  { rewrite findTransition_edge. unfold consensusStates in Hin.
    rewrite !elem_of_cons, elem_of_nil in Hin. cbn.
    destruct Hin as [->|[->|[->|[->|[->|[->|[->|[]]]]]]]]; done. }
  case_bool_decide as Hd.
  - eapply handleEvt_invalid_dst; [done|exact He|done|].
    subst dst. unfold consensusStates. rewrite !elem_of_cons, elem_of_nil.
    intros Hx. repeat (destruct Hx as [Hx|Hx]; [discriminate|]). done.
  - eapply handleEvt_edge; [done|exact He|done|].
    unfold consensusStates. rewrite !elem_of_cons. destruct dst; tauto.
Qed.

#[local] Arguments processEndorseCommit : simpl never.

(** Unfolding of the monad and of the primitive actions. *)
Ltac run_monad :=
  unfold bind, ret, getCtx, setRound, setEpoch, modifyCtx, logger, p2p_Broadcast,
    actPool_Reset, chain_CommitBlock, produceCEvt, newCEvt, newTimeoutEvt, produce in *.







Lemma edge_StartRound :
  findTransition sRoundStart eStartRound
  = Some (handleStartRoundEvt (Chain := Chain) (BlockPb := BlockPb),
          [sInitPropose; sAcceptPropose]).
Proof. reflexivity. Qed.

Lemma startRound_turn m evt (p : string) (h : Z) :
  fsm_cur m = sRoundStart →
  evtType evt = eStartRound →
  notStale evt m →
  rotatedProposer (ctx m) = Ok (p, h) →
  ∃ m', handleEvt evt m = Some (tt, m')
    ∧ ctx m' = set_round (freshRound h p m) (ctx m)
    ∧ sent m' = sent m ∧ commits m' = commits m
    ∧ if bool_decide (p = RawAddress (addr (ctx m))) then
        fsm_cur m' = sInitPropose
        ∧ evtq m' = evtq m ++ [CEvt {| evt_t := eInitBlock; evt_ts := clock (ctx m) |}]
        ∧ delayed m' = delayed m
      else
        fsm_cur m' = sAcceptPropose
        ∧ produced (timeoutEvtAt eProposeBlockTimeout m)
            (AcceptProposeTTL (cfg (ctx m))) m m'.
Proof.
  intros Hcur Ht Hn Hp.
  assert (Hh : ∃ dst m1, handleStartRoundEvt evt m = Some ((dst, None), m1)
             ∧ dst ∈ [sInitPropose; sAcceptPropose]
             ∧ ctx m1 = set_round (freshRound h p m) (ctx m)
             ∧ sent m1 = sent m ∧ commits m1 = commits m
             ∧ if bool_decide (p = RawAddress (addr (ctx m))) then
                 dst = sInitPropose
                 ∧ evtq m1 = evtq m ++ [CEvt {| evt_t := eInitBlock; evt_ts := clock (ctx m) |}]
                 ∧ delayed m1 = delayed m
               else
                 dst = sAcceptPropose
                 ∧ produced (timeoutEvtAt eProposeBlockTimeout m)
                     (AcceptProposeTTL (cfg (ctx m))) m m1).
  { unfold handleStartRoundEvt, produced, timeoutEvtAt, freshRound. run_monad. cbn.
    rewrite Hp. cbn.
    destruct (bool_decide (p = RawAddress (addr (ctx m)))); cbn;
      [|destruct (0 <? _)];
      (eexists _, _; split; [reflexivity|]; cbn;
       split; [rewrite !elem_of_cons; tauto|done]). }
  destruct Hh as (dst & m1 & Hh & Hd & Hctx & Hse & Hco & Hb).
  rewrite (handleEvt_edge evt m _ _ _ m1 Hn
             ltac:(rewrite Hcur, Ht; apply edge_StartRound) Hh Hd).
  eexists. split; [reflexivity|]. cbn. split_and!; try done.
  all: destruct (bool_decide (p = RawAddress (addr (ctx m))));
    [by destruct Hb as (-> & ? & ?)|].
  all: destruct Hb as (-> & Hpr); split; [done|].
  all: unfold produced in *; cbn; by destruct (0 <? _).
Qed.


(** X7: a new round leaves the timeouts of the past behind.  Once
    [StartRound] has been handled, a timeout event made at an earlier
    reading of the clock is stale, whatever its type and whatever the state
    the FSM is in: the worker drops it and only logs; the timeout that the
    turn itself has armed is not stale. *)
Theorem new_round_drops_old_timeouts m evt (p : string) (h : Z) c :
  fsm_cur m = sRoundStart →
  evtType evt = eStartRound →
  notStale evt m →
  rotatedProposer (ctx m) = Ok (p, h) →
  evt_ts c < clock (ctx m) →
  ∃ m', handleEvt evt m = Some (tt, m')
    ∧ handleEvt (TimeoutEvt c) m'
      = Some (tt, addLogs [(Debug, "timeoutEvt is stale")] m')
    ∧ notStale (timeoutEvtAt eProposeBlockTimeout m) m'.
Proof.
  intros Hcur Ht Hn Hp Hc.
  destruct (startRound_turn m evt p h Hcur Ht Hn Hp) as (m' & Hr & Hctx & _).
  exists m'. split; [done|]. split.
  - apply handleEvt_stale. rewrite Hctx. cbn. unfold Before. by apply Z.ltb_lt.
  - cbn. by rewrite Hctx.
Qed.

#[local] Arguments tally : simpl never.
#[local] Arguments newEndorseEvt : simpl never.



Lemma newEndorseCommitEvt_zero (blkHash : Hash32B) (decision : bool) m :
  addr_PrivateKey (addr (ctx m)) = ZeroPrivateKey →
  newEndorseCommitEvt blkHash decision m
  = Some (Err (errors_New "The endorser's private key is empty"),
          addLogs [(Error, "failed to sign endorse for block")] m).
Proof.
  intros Hk. unfold newEndorseCommitEvt, newEndorseEvt. run_monad. cbn.
  by rewrite (Sign_zero _ _ Hk).
Qed.















Lemma handler_unsigned (src : State) (t : EventType) (h : handler) (dsts : list State)
    c en m :
  findTransition src t = Some (h, dsts) →
  h (EndorseEvt c en) m = h (EndorseEvt c (unsigned en)) m.
Proof.
  rewrite findTransition_edge. intros He.
  destruct src, t; cbn in He; simplify_eq; reflexivity.
Qed.

(** X11: endorsements are counted unverified.  No handler reads the
    signature or the public key of an endorsement: in every state that has
    an edge for the event, the turn of the worker on an endorsement and on
    the same endorsement stripped of its key and signature end in the same
    machine.  The vote is recorded under the endorser that the message
    names. *)
Theorem endorse_tallied_unverified m c en :
  is_Some (findTransition (fsm_cur m) (evt_t c)) →
  handleEvt (EndorseEvt c en) m = handleEvt (EndorseEvt c (unsigned en)) m.
Proof.
  intros [[h dsts] He]. unfold handleEvt, bind, getCtx. cbn match.
  unfold fsm_Handle, evtType. cbn [embedded]. rewrite He.
  rewrite (handler_unsigned _ _ _ _ c en m He).
  destruct (h (EndorseEvt c (unsigned en)) m) as [[[dst [e|]] m1]|]; [done| |done].
  by case_bool_decide.
Qed.

(** *** What a handler has done when it returns an error *)

Lemma still_refl m : still m m.
Proof. by unfold still. Qed.

Lemma still_trans m1 m2 m3 : still m1 m2 → still m2 m3 → still m1 m3.
Proof.
  unfold still. intros (?&?&?&?&?&?) (?&?&?&?&?&?). split_and!; congruence.
Qed.

Lemma silent_ret {A} (a : A) : silent (ret a : MM A).
Proof. intros m a' m' [= _ <-]. apply still_refl. Qed.

Lemma silent_panic {A} : silent (panic : MM A).
Proof. by intros m a' m'. Qed.

Lemma silent_bind {A B} (x : MM A) (f : A → MM B) :
  silent x → (∀ a, silent (f a)) → silent (bind x f).
Proof.
  intros Hx Hf m b m'. unfold bind. destruct (x m) as [[a m1]|] eqn:Hr; [|done].
  intros Hr2. eapply still_trans; [by eapply Hx|by eapply Hf].
Qed.

Lemma silent_getCtx : silent (getCtx : MM _).
Proof. intros m a m' [= _ <-]. apply still_refl. Qed.

Lemma silent_setRound r : silent (setRound r : MM _).
Proof. by intros m a m' [= _ <-]. Qed.

Lemma silent_setEpoch e : silent (setEpoch e : MM _).
Proof. by intros m a m' [= _ <-]. Qed.

Lemma silent_logger lvl msg : silent (logger lvl msg : MM _).
Proof. by intros m a m' [= _ <-]. Qed.

Lemma silent_newCEvt t : silent (newCEvt t : MM _).
Proof. intros m a m' [= _ <-]. apply still_refl. Qed.

Ltac silent_step :=
  first
    [ apply silent_getCtx | apply silent_setRound | apply silent_setEpoch
    | apply silent_logger | apply silent_newCEvt | apply silent_panic
    | apply silent_bind; [ | intros ? ]
    | match goal with
      | |- silent (match ?x with _ => _ end) => destruct x
      | |- silent (if ?x then _ else _) => destruct x
      end
    | apply silent_ret ].

Ltac silent_tac :=
  unfold validateProposeBlock, validateEndorse, isDelegate, newEndorseProposalEvt,
    newEndorseCommitEvt, newEndorseEvt, newEndorseEvtWithEndorse, newProposeBlkEvt,
    newTimeoutEvt;
  repeat silent_step.

Lemma neverFails_ret (s : State) : neverFails (ret (s, None) : MM _).
Proof. by intros m r m' [= <- _]. Qed.

Lemma neverFails_bind {A} (x : MM A) (f : A → MM (State * option error)) :
  (∀ a, neverFails (f a)) → neverFails (bind x f).
Proof.
  intros Hf m r m'. unfold bind. destruct (x m) as [[a m1]|]; [|done]. apply Hf.
Qed.

Ltac neverFails_tac :=
  unfold moveToAcceptProposalEndorse, moveToAcceptCommitEndorse, processEndorseCommit,
    produceCEvt;
  repeat first
    [ apply neverFails_ret
    | apply neverFails_bind; intros ?
    | match goal with
      | |- neverFails (match ?x with _ => _ end) => destruct x
      | |- neverFails (if ?x then _ else _) => destruct x
      end ].

Lemma failsStill_ok (s : State) : failsStill (ret (s, None) : MM _).
Proof. by intros m dst e m'. Qed.

Lemma failsStill_err (e : error) : failsStill (ret (sInvalid, Some e) : MM _).
Proof. intros m dst e' m' [= <- _ <-]. split; [done|apply still_refl]. Qed.

Lemma failsStill_silent {A} (x : MM A) (f : A → MM (State * option error)) :
  silent x → (∀ a, failsStill (f a)) → failsStill (bind x f).
Proof.
  intros Hx Hf m dst e m'. unfold bind. destruct (x m) as [[a m1]|] eqn:Hr; [|done].
  intros Hr2. destruct (Hf a m1 dst e m' Hr2) as [-> Hs]. split; [done|].
  eapply still_trans; [by eapply Hx|done].
Qed.

Lemma failsStill_neverFails (x : MM (State * option error)) :
  neverFails x → failsStill x.
Proof. intros Hx m dst e m' Hr. by apply Hx in Hr. Qed.

Ltac failsStill_tac :=
  repeat first
    [ apply failsStill_ok | apply failsStill_err
    | apply failsStill_silent; [ solve [silent_tac] | intros ? ]
    | match goal with
      | |- failsStill (match ?x with _ => _ end) => destruct x
      | |- failsStill (if ?x then _ else _) => destruct x
      end
    | apply failsStill_neverFails; solve [neverFails_tac] ].

Lemma failsStill_produceStartRoundEvt (f : option error → MM (State * option error)) :
  (∀ e, failsStill (f (Some e))) → neverFails (f None) →
  failsStill (bind produceStartRoundEvt f).
Proof.
  intros Hf Hn m dst e m'. unfold produceStartRoundEvt, bind at 1 2, getCtx at 1.
  destruct (rc_block (round (ctx m))) as [blk|].
  - unfold bind. destruct (if _ <=? _ then _ else _) as [[[] m1]|]; [|done].
    unfold ret. intros Hr. by apply Hn in Hr.
  - destruct (calcDurationSinceLastBlock (ctx m)) as [d|err].
    + unfold bind. destruct (if _ <=? _ then _ else _) as [[[] m1]|]; [|done].
      unfold ret. intros Hr. by apply Hn in Hr.
    + unfold ret. apply Hf.
Qed.

(** X14: only the roll of the delegates tolerates an error.  When any
    other handler of the table returns an error, it returns it with
    [sInvalid] and has acted on nothing but the round and epoch contexts and
    the log: nothing has been queued, delayed, sent, committed or reset.
    The FSM then stays in its state with no event scheduled by the failed
    turn. *)
Theorem handler_error_schedules_nothing (src : State) (t : EventType) (h : handler)
    (dsts : list State) evt m dst e m' :
  findTransition src t = Some (h, dsts) →
  t ≠ eRollDelegates →
  h evt m = Some ((dst, Some e), m') →
  dst = sInvalid ∧ still m m'.
Proof.
  intros He Ht. revert m dst e m'. change (failsStill (h evt)).
  rewrite findTransition_edge in He.
  destruct src, t; cbn in He; simplify_eq.
  all: try (unfold handleBackdoorEvt, handleStartRoundEvt, handleInitBlockEvt,
              handleProposeBlockEvt, handleProposeBlockTimeout, handleEndorseProposalEvt,
              handleEndorseProposalTimeout, handleEndorseCommitEvt,
              handleEndorseCommitTimeout;
            by failsStill_tac).
  - unfold handleGenerateDKGEvt.
    apply failsStill_silent; [by silent_tac|intros c'].
    destruct (generateDKG c'); [|by apply failsStill_err].
    apply failsStill_silent; [by silent_tac|intros _].
    apply failsStill_produceStartRoundEvt; [intros e; apply failsStill_err|].
    apply neverFails_ret.
  - unfold handleFinishEpochEvt.
    apply failsStill_silent; [by silent_tac|intros c'].
    destruct (isEpochFinished c') as [[]|]; [by failsStill_tac| |by apply failsStill_err].
    apply failsStill_produceStartRoundEvt; [intros e; apply failsStill_err|].
    apply neverFails_ret.
Qed.



End FSMMore.

Section SeedFacts.
Context {Chain BlockPb : Type} `{Cr : !Crypto} `{Co : !@Collab Chain BlockPb}.
Implicit Types (m : @cFSM Chain BlockPb) (evt : iConsensusEvt) (c : consensusEvt).

Local Abbreviation MM := (@M Chain BlockPb).

#[local] Arguments Sign : simpl never.

(** *** The seed of the epoch *)

Lemma seedKept_refl m : seedKept m m.
Proof. by left. Qed.






















End SeedFacts.

Section CommitFacts.
Context {Chain BlockPb : Type} `{Cr : !Crypto} `{Co : !@Collab Chain BlockPb}.
Implicit Types (m : @cFSM Chain BlockPb) (evt : iConsensusEvt) (c : consensusEvt).

Local Abbreviation MM := (@M Chain BlockPb).

#[local] Arguments Sign : simpl never.
#[local] Arguments processEndorseCommit : simpl never.
#[local] Arguments tally : simpl never.

(** *** When blocks are handed to the chain *)






















End CommitFacts.

(** ** The validation of the configuration *)

Lemma ValidateRollDPoS_None (c : Config) :
  ValidateRollDPoS c = None
  ↔ (Scheme (Consensus_ c) = RollDPoSScheme →
     0 < config.RollDPoS_EventChanSize (RollDPoS_ (Consensus_ c))
     ∧ 0 < NumDelegates (RollDPoS_ (Consensus_ c))
     ∧ ¬ (EnableDummyBlock (RollDPoS_ (Consensus_ c)) = true
          ∧ TimeBasedRotation (RollDPoS_ (Consensus_ c)) = true)).
Proof.
  unfold ValidateRollDPoS.
  case_bool_decide as Hs; cbn [andb].
  - destruct (_ <=? 0) eqn:H1; [apply Z.leb_le in H1|apply Z.leb_gt in H1].
    { split; [done|]. intros H. specialize (H Hs). lia. }
    destruct (NumDelegates _ <=? 0) eqn:H2; [apply Z.leb_le in H2|apply Z.leb_gt in H2].
    { split; [done|]. intros H. specialize (H Hs). lia. }
    destruct (EnableDummyBlock _), (TimeBasedRotation _); cbn;
      (split; [try done; intros _ _; split_and!; try done; by intros []|]);
      try done.
    intros H. destruct (H Hs) as (_ & _ & []). done.
  - split; [done|]. done.
Qed.

Lemma ValidateConsensusScheme_None (cfg : config.Root) :
  config.ValidateConsensusScheme cfg = None
  ↔ (NodeType (config.Core cfg) = config.DelegateType
     ∨ (NodeType (config.Core cfg) = config.FullNodeType ∨ NodeType (config.Core cfg) = config.LightweightType)
       ∧ Scheme (Consensus_ (config.Core cfg)) = NOOPScheme).
Proof.
  unfold config.ValidateConsensusScheme.
  repeat case_bool_decide; cbn; split; try done; try tauto;
    try (intros [?|[[?|?] ?]]; congruence).
Qed.

Lemma ValidateDispatcher_None (cfg : config.Root) :
  config.ValidateDispatcher cfg = None ↔ 0 < config.EventChanSize (config.Dispatcher_ cfg).
Proof.
  unfold config.ValidateDispatcher.
  destruct (_ <=? 0) eqn:H; [apply Z.leb_le in H|apply Z.leb_gt in H];
    split; try done; lia.
Qed.

Lemma ValidateExplorer_None (cfg : config.Root) :
  config.ValidateExplorer cfg = None
  ↔ (config.Enabled (config.Explorer_ cfg) = true → 0 < config.TpsWindow (config.Explorer_ cfg)).
Proof.
  unfold config.ValidateExplorer.
  destruct (config.Enabled _); cbn [andb]; [|by split].
  destruct (_ <=? 0) eqn:H; [apply Z.leb_le in H|apply Z.leb_gt in H];
    split; try done. intros H'. specialize (H' eq_refl). lia.
Qed.

Lemma ValidateNetwork_None (cfg : config.Root) :
  config.ValidateNetwork cfg = None
  ↔ (config.PeerDiscovery (config.Network_ cfg) = true ∨ config.TopologyPath (config.Network_ cfg) ≠ "").
Proof.
  unfold config.ValidateNetwork.
  destruct (config.PeerDiscovery _); cbn [negb andb]; [split; [by left|done]|].
  case_bool_decide; split; try done; [by intros [|]|by right].
Qed.

Lemma ValidateActPool_None (cfg : config.Root) :
  config.ValidateActPool cfg = None
  ↔ 0 < config.MaxNumActsPerAcct (config.ActPool_ cfg) ≤ config.MaxNumActsPerPool (config.ActPool_ cfg).
Proof.
  unfold config.ValidateActPool. cbn zeta.
  destruct (config.MaxNumActsPerPool _ <=? 0) eqn:H1;
    [apply Z.leb_le in H1|apply Z.leb_gt in H1]; cbn [orb]; [split; [done|lia]|].
  destruct (config.MaxNumActsPerAcct _ <=? 0) eqn:H2;
    [apply Z.leb_le in H2|apply Z.leb_gt in H2]; [split; [done|lia]|].
  destruct (_ <? _) eqn:H3; [apply Z.ltb_lt in H3|apply Z.ltb_ge in H3];
    split; try done; lia.
Qed.

Lemma ValidateChain_None (cfg : config.Root) :
  config.ValidateChain cfg = None
  ↔ 0 < config.NumCandidates (config.Chain_ cfg)
    ∧ (Scheme (Consensus_ (config.Core cfg)) = RollDPoSScheme →
       NumDelegates (RollDPoS_ (Consensus_ (config.Core cfg))) ≤ config.NumCandidates (config.Chain_ cfg)).
Proof.
  unfold config.ValidateChain.
  destruct (_ <=? 0) eqn:H1; [apply Z.leb_le in H1|apply Z.leb_gt in H1];
    [split; [done|lia]|].
  case_bool_decide as Hs; cbn [andb]; [|split; [done|done]].
  destruct (_ <? _) eqn:H3; [apply Z.ltb_lt in H3|apply Z.ltb_ge in H3].
  - split; [done|]. intros [_ H]. specialize (H Hs). lia.
  - split; [done|done].
Qed.

Section NewFacts.

Context `{Cr : Crypto}.
Context (DecodePrivateKey : string → result PrivateKey).
Context (DecodePublicKey : string → result PublicKey).
Context {YAML : Type} (NewYAML : result YAML) (Populate : YAML → result config.Root).

Local Abbreviation ValidateKeyPair' := (config.ValidateKeyPair DecodePrivateKey DecodePublicKey).
Local Abbreviation Validates' := (config.Validates DecodePrivateKey DecodePublicKey).
Local Abbreviation New' := (config.New DecodePrivateKey DecodePublicKey NewYAML Populate).
Local Abbreviation keyPairMatches' := (config.keyPairMatches DecodePrivateKey DecodePublicKey).

Lemma ValidateKeyPair_None (cfg : config.Root) :
  ValidateKeyPair' cfg = None ↔ keyPairMatches' cfg.
Proof.
  unfold config.ValidateKeyPair, config.keyPairMatches.
  destruct (DecodePrivateKey _) as [sk|e1].
  2:{ split; [done|]. by intros (? & ? & ? & _). }
  destruct (DecodePublicKey _) as [pk|e2].
  2:{ split; [done|]. by intros (? & ? & _ & ? & _). }
  destruct (EC283_Verify _ _ _) eqn:Hv; cbn [negb].
  - split; [|done]. intros _. by exists sk, pk.
  - split; [done|]. intros (? & ? & [= <-] & [= <-] & ?). congruence.
Qed.

Lemma validateAll_None (validates : list config.Validate) (cfg : config.Root) :
  config.validateAll validates cfg = None ↔ Forall (λ validate, validate cfg = None) validates.
Proof.
  induction validates as [|v vs IH]; cbn; [by split|].
  rewrite Forall_cons. destruct (v cfg); [|rewrite IH]; [split; [done|by intros [? _]]|].
  split; [by split|by intros [_ ?]].
Qed.

Lemma validateAll_first (vs1 vs2 : list config.Validate) (v : config.Validate) (cfg : config.Root) (e : error) :
  Forall (λ validate, validate cfg = None) vs1 →
  v cfg = Some e →
  config.validateAll (vs1 ++ v :: vs2) cfg = Some (errors_Wrap e "failed to validate config").
Proof.
  intros Hp Hv. induction Hp as [|v' vs1 Hv' _ IH]; cbn; [by rewrite Hv|].
  by rewrite Hv'.
Qed.

Lemma validateAll_cause (validates : list config.Validate) (cfg : config.Root) (cause e : error) :
  Forall (λ validate, ∀ e', validate cfg = Some e' → errors_Cause e' = cause) validates →
  config.validateAll validates cfg = Some e →
  errors_Cause e = cause.
Proof.
  intros Hc. induction Hc as [|v vs Hv _ IH]; cbn; [done|].
  destruct (v cfg) as [e'|]; [|done]. intros [= <-]. cbn. by apply Hv.
Qed.

(** X19: the configurations that [config.New] accepts by default.  With no
    validation function given, [config.New] returns the configuration populated
    from the YAML sources exactly when its key pair decodes and matches,
    the node type is known and fits the scheme (only a delegate may run a
    scheme other than NOOP), the options of Roll-DPoS are sound when
    Roll-DPoS is the scheme (positive channel size and number of delegates,
    not both dummy blocks and time based rotation, no more delegates than
    candidates), and the options of the dispatcher, the explorer, the
    network, the action pool and the chain are in their ranges. *)
Theorem New_accepts_iff (cfg : config.Root) :
  New' [] = Ok cfg
  ↔ (∃ yaml, NewYAML = Ok yaml ∧ Populate yaml = Ok cfg)
    ∧ keyPairMatches' cfg ∧ config.wellFormed cfg.
Proof.
  unfold config.New. cbn [length]. rewrite bool_decide_eq_true_2 by done.
  destruct NewYAML as [yaml|e0]; [|split; [done|by intros [(? & ? & _) _]]].
  destruct (Populate yaml) as [cfg'|e1] eqn:Hpop.
  2:{ split; [done|]. intros [(? & [= <-] & ?) _]. congruence. }
  assert (Hall : config.validateAll Validates' cfg' = None
                 ↔ keyPairMatches' cfg' ∧ config.wellFormed cfg').
  { rewrite validateAll_None. unfold config.Validates. rewrite !Forall_cons, Forall_nil.
    rewrite ValidateKeyPair_None, ValidateConsensusScheme_None, ValidateDispatcher_None,
      ValidateExplorer_None, ValidateNetwork_None, ValidateActPool_None,
      ValidateChain_None.
    unfold config.ValidateRollDPoS. rewrite ValidateRollDPoS_None.
    unfold config.wellFormed. cbn zeta. tauto. }
  destruct (config.validateAll Validates' cfg') as [e|] eqn:Hv.
  - split; [done|]. intros [(y & [= <-] & Hp) Hw].
    rewrite Hpop in Hp. injection Hp as ->. apply Hall in Hw. done.
  - split.
    + intros [= ->]. split; [by exists yaml|]. by apply Hall.
    + intros [(y & [= <-] & Hp) _]. congruence.
Qed.

(** X20: what a rejection is caused by.  When the YAML sources load and
    the keys decode, every error of the default validation is a chain of
    wrappings of [ErrInvalidCfg]: the cause that [errors.Cause] finds under
    the error of [config.New] is [ErrInvalidCfg]. *)
Theorem New_rejection_cause (yaml : YAML) (cfg : config.Root) (priKey : PrivateKey)
    (pubKey : PublicKey) (e : error) :
  NewYAML = Ok yaml → Populate yaml = Ok cfg →
  DecodePrivateKey (config.ProducerPrivKey (config.Chain_ cfg)) = Ok priKey →
  DecodePublicKey (config.ProducerPubKey (config.Chain_ cfg)) = Ok pubKey →
  New' [] = Err e →
  errors_Cause e = ErrInvalidCfg.
Proof.
  intros Hy Hp Hsk Hpk. unfold config.New. rewrite Hy, Hp. cbn [length].
  rewrite bool_decide_eq_true_2 by done.
  destruct (config.validateAll Validates' cfg) as [e'|] eqn:Hv; [|done].
  intros [= <-]. eapply validateAll_cause; [|exact Hv].
  unfold config.Validates. repeat apply Forall_cons_2; try apply Forall_nil_2; intros e1.
  - unfold config.ValidateKeyPair. rewrite Hsk, Hpk. by destruct (negb _); intros [= <-].
  - unfold config.ValidateConsensusScheme.
    repeat (case_bool_decide; cbn [negb]); by intros [= <-].
  - unfold config.ValidateRollDPoS, ValidateRollDPoS.
    repeat (destruct (_ && _)); by intros [= <-].
  - unfold config.ValidateDispatcher. destruct (_ <=? _); by intros [= <-].
  - unfold config.ValidateExplorer. destruct (_ && _); by intros [= <-].
  - unfold config.ValidateNetwork. destruct (_ && _); by intros [= <-].
  - unfold config.ValidateActPool. cbn zeta. destruct (_ || _); [by intros [= <-]|].
    destruct (_ <? _); by intros [= <-].
  - unfold config.ValidateChain. destruct (_ <=? _); [by intros [= <-]|].
    destruct (_ && _); by intros [= <-].
Qed.

(** X21: the validation functions that the caller gives.  A non-empty
    list replaces the default validation: [config.New] applies its functions in
    order and stops at the first that rejects, whose error it wraps; when
    none rejects, which is always so of [config.DoNotValidate] alone, the populated
    configuration is returned as it is. *)
Theorem New_custom_validates (validates : list config.Validate) (yaml : YAML) (cfg : config.Root) :
  validates ≠ [] →
  NewYAML = Ok yaml → Populate yaml = Ok cfg →
  (Forall (λ validate, validate cfg = None) validates → New' validates = Ok cfg)
  ∧ (∀ vs1 v vs2 e,
       validates = vs1 ++ v :: vs2 →
       Forall (λ validate, validate cfg = None) vs1 →
       v cfg = Some e →
       New' validates = Err (errors_Wrap e "failed to validate config")).
Proof.
  intros Hne Hy Hp. unfold config.New. rewrite Hy, Hp.
  rewrite bool_decide_eq_false_2 by (by destruct validates).
  split.
  - intros Hall. apply validateAll_None in Hall. by rewrite Hall.
  - intros vs1 v vs2 e -> Hall Hv. by rewrite (validateAll_first _ _ _ _ e Hall Hv).
Qed.

End NewFacts.

(** ** The ranges of the index builder *)

Section indexbuilder_facts.

Context {Explorer : Type}.
Context (BuildIndexByRange : Explorer → Z → Z → Z * option error * Explorer).
Context (fromBlockID toBlockID batchSize retryLimit : Z).

Local Abbreviation run := (@indexbuilder.run Explorer).
Local Abbreviation retryLoop := (indexbuilder.retryLoop BuildIndexByRange retryLimit).
Local Abbreviation batchLoop :=
  (indexbuilder.batchLoop BuildIndexByRange toBlockID batchSize retryLimit).
Local Abbreviation main :=
  (indexbuilder.main BuildIndexByRange fromBlockID toBlockID batchSize retryLimit).
Local Abbreviation tiles := (indexbuilder.tiles toBlockID batchSize).
Local Abbreviation attempts := (indexbuilder.attempts BuildIndexByRange).

Implicit Types (r : run) (e : Explorer).

Lemma addInt64_small (a b : Z) :
  - 2 ^ 63 ≤ a + b ≤ indexbuilder.maxInt64 → indexbuilder.addInt64 a b = a + b.
Proof.
  unfold indexbuilder.addInt64, indexbuilder.wrapInt64, indexbuilder.maxInt64.
  intros H. rewrite Z.mod_small by lia. lia.
Qed.

Lemma batchLoop_done (fuel : nat) (i : Z) r :
  toBlockID < i → batchLoop fuel i r = Some r.
Proof.
  intros Hi. destruct fuel; cbn; by rewrite (proj2 (Z.leb_gt _ _)) by lia.
Qed.

(** The end of the batch that starts at [i], when no sum wraps around. *)
Lemma endBlock_eq (i : Z) :
  - 2 ^ 63 ≤ i → i ≤ toBlockID → 1 ≤ batchSize →
  toBlockID + batchSize ≤ indexbuilder.maxInt64 →
  (let endBlock := indexbuilder.addInt64 (indexbuilder.addInt64 i batchSize) (-1) in
   if toBlockID <? endBlock then toBlockID else endBlock)
  = Z.min toBlockID (i + batchSize - 1).
Proof.
  intros Hlo Hi Hb Hmax. cbn zeta.
  rewrite (addInt64_small i batchSize) by (unfold indexbuilder.maxInt64 in *; lia).
  rewrite addInt64_small by (unfold indexbuilder.maxInt64 in *; lia).
  destruct (_ <? _) eqn:H; [apply Z.ltb_lt in H|apply Z.ltb_ge in H]; lia.
Qed.

(** The loop over the batches when the inner loop ends every batch without
    a fatal error and without a word in the log, having made the calls
    [made a b] for the batch from [a] to [b]. *)
Lemma batchLoop_tiles (step : Z → Z → run → run) (made : Z → Z → list (Z * Z)) :
  1 ≤ batchSize →
  toBlockID + batchSize ≤ indexbuilder.maxInt64 →
  (∀ a b r, retryLoop (Z.to_nat retryLimit) 0 a b r = Some (false, step a b r)) →
  (∀ a b r, indexbuilder.logged (step a b r) = indexbuilder.logged r) →
  (∀ a b r, indexbuilder.calls (step a b r) = indexbuilder.calls r ++ made a b) →
  ∀ (fuel : nat) (i : Z) r,
    - 2 ^ 63 ≤ i →
    (Z.to_nat (toBlockID - i + 1) ≤ fuel)%nat →
    ∃ r' ranges,
      batchLoop fuel i r = Some r'
      ∧ tiles i ranges
      ∧ indexbuilder.logged r'
        = indexbuilder.logged r
          ++ ((λ range, indexbuilder.Finished range.1 range.2) <$> ranges)
      ∧ indexbuilder.calls r'
        = indexbuilder.calls r ++ concat ((λ range, made range.1 range.2) <$> ranges).
Proof.
  intros Hb Hmax Hstep Hlog Hcalls. induction fuel as [|fuel IH]; intros i r Hlo Hfuel.
  - exists r, []. rewrite batchLoop_done by lia. cbn. rewrite !app_nil_r.
    split_and!; try done. lia.
  - destruct (decide (toBlockID < i)) as [Hi|Hi].
    { exists r, []. rewrite batchLoop_done by lia. cbn. rewrite !app_nil_r.
      by split_and!. }
    cbn [indexbuilder.batchLoop]. rewrite (proj2 (Z.leb_le _ _)) by lia.
    rewrite endBlock_eq by lia. rewrite Hstep.
    rewrite (addInt64_small i batchSize) by (unfold indexbuilder.maxInt64 in *; lia).
    set (endBlock := Z.min toBlockID (i + batchSize - 1)).
    set (r1 := {| indexbuilder.explorer := _ |}).
    destruct (decide (toBlockID < i + batchSize)) as [Hlast|Hmore].
    + exists r1, [(i, endBlock)]. rewrite batchLoop_done by lia.
      split; [done|]. split; [cbn; lia|]. cbn. rewrite Hlog, Hcalls, app_nil_r. done.
    + destruct (IH (i + batchSize) r1) as (r' & ranges & Hr & Ht & Hl & Hc); [lia|lia|].
      exists r', ((i, endBlock) :: ranges). split; [done|].
      split.
      { cbn. split; [done|]. split; [lia|]. split; [lia|].
        by replace (endBlock + 1) with (i + batchSize) by lia. }
      rewrite Hl, Hc. cbn. rewrite Hlog, Hcalls, <- !app_assoc. done.
Qed.

(** X22: the batches tile the range.  With a batch size and a retry limit
    of one at least, bounds that keep the sums within [int64], and a service
    that answers every range without error, the tool ends; it has asked the
    service once for each of a sequence of ranges that are consecutive, do
    not overlap, hold [batchSize] blocks at most and cover the blocks from
    [fromBlockID] to [toBlockID] exactly, and has logged each of them as
    finished, in order. *)
Theorem main_tiles_the_range e :
  1 ≤ batchSize → 1 ≤ retryLimit →
  - 2 ^ 63 ≤ fromBlockID →
  toBlockID + batchSize ≤ indexbuilder.maxInt64 →
  (∀ e' a b, (BuildIndexByRange e' a b).1.2 = None) →
  ∃ r, main (Z.to_nat (toBlockID - fromBlockID + 1)) e = Some r
    ∧ tiles fromBlockID (indexbuilder.calls r)
    ∧ indexbuilder.logged r
      = (λ range, indexbuilder.Finished range.1 range.2) <$> indexbuilder.calls r.
Proof.
  intros Hb Hr Hlo Hmax Hok.
  set (step := λ (a b : Z) (r : run),
         {| indexbuilder.explorer := (BuildIndexByRange (indexbuilder.explorer r) a b).2;
            indexbuilder.calls := indexbuilder.calls r ++ [(a, b)];
            indexbuilder.logged := indexbuilder.logged r |}).
  destruct (batchLoop_tiles step (λ a b, [(a, b)]) Hb Hmax) with
    (fuel := Z.to_nat (toBlockID - fromBlockID + 1)) (i := fromBlockID)
    (r := {| indexbuilder.explorer := e; indexbuilder.calls := [];
             indexbuilder.logged := [] |})
    as (r' & ranges & Hrun & Ht & Hl & Hc); try done.
  { intros a b r. subst step. destruct (Z.to_nat retryLimit) as [|n] eqn:Hn; [lia|].
    cbn [indexbuilder.retryLoop]. rewrite (proj2 (Z.ltb_lt _ _)) by lia.
    specialize (Hok (indexbuilder.explorer r) a b). cbn beta.
    destruct (BuildIndexByRange _ a b) as [[fb err] e']. cbn in Hok. by subst err. }
  exists r'. split; [done|]. cbn in Hl, Hc.
  assert (Hflat : concat ((λ range : Z * Z, [(range.1, range.2)]) <$> ranges) = ranges).
  { clear. induction ranges as [|[a b] l IH]; cbn; [done|]. by rewrite IH. }
  rewrite Hflat in Hc. by rewrite Hc, Hl.
Qed.

(** X23: a retry limit of zero.  When the retry limit is not positive the
    inner loop is never entered: the tool asks the service for nothing, and
    still logs every batch of the range as finished. *)
Theorem main_retry_limit_zero e :
  retryLimit ≤ 0 →
  1 ≤ batchSize →
  - 2 ^ 63 ≤ fromBlockID →
  toBlockID + batchSize ≤ indexbuilder.maxInt64 →
  ∃ r, main (Z.to_nat (toBlockID - fromBlockID + 1)) e = Some r
    ∧ indexbuilder.calls r = []
    ∧ indexbuilder.explorer r = e
    ∧ ∃ ranges, tiles fromBlockID ranges
        ∧ indexbuilder.logged r
          = (λ range, indexbuilder.Finished range.1 range.2) <$> ranges.
Proof.
  intros Hr Hb Hlo Hmax.
  assert (Hstep : ∀ (fuel : nat) (a b : Z) (r : run),
            retryLoop fuel 0 a b r = Some (false, r)).
  { intros fuel a b r. destruct fuel; cbn; by rewrite (proj2 (Z.ltb_ge _ _)) by lia. }
  assert (Hgen : ∀ (fuel : nat) (i : Z) r,
            - 2 ^ 63 ≤ i → (Z.to_nat (toBlockID - i + 1) ≤ fuel)%nat →
            ∃ r' ranges, batchLoop fuel i r = Some r'
              ∧ tiles i ranges
              ∧ indexbuilder.logged r'
                = indexbuilder.logged r
                  ++ ((λ range, indexbuilder.Finished range.1 range.2) <$> ranges)
              ∧ indexbuilder.calls r' = indexbuilder.calls r
              ∧ indexbuilder.explorer r' = indexbuilder.explorer r).
  { induction fuel as [|fuel IH]; intros i r Hi Hfuel.
    - exists r, []. rewrite batchLoop_done by lia. cbn. rewrite app_nil_r.
      split_and!; try done. lia.
    - destruct (decide (toBlockID < i)) as [Hgt|Hle].
      { exists r, []. rewrite batchLoop_done by lia. cbn. rewrite app_nil_r.
        by split_and!. }
      cbn [indexbuilder.batchLoop]. rewrite (proj2 (Z.leb_le _ _)) by lia.
      rewrite endBlock_eq by lia. rewrite Hstep.
      rewrite (addInt64_small i batchSize) by (unfold indexbuilder.maxInt64 in *; lia).
      set (endBlock := Z.min toBlockID (i + batchSize - 1)).
      set (r1 := {| indexbuilder.explorer := _ |}).
      destruct (decide (toBlockID < i + batchSize)) as [Hlast|Hmore].
      + exists r1, [(i, endBlock)]. rewrite batchLoop_done by lia.
        split; [done|]. split; [cbn; lia|]. by cbn.
      + destruct (IH (i + batchSize) r1) as (r' & ranges & Hrun & Ht & Hl & Hc & He);
          [lia|lia|].
        exists r', ((i, endBlock) :: ranges). split; [done|].
        split.
        { cbn. split; [done|]. split; [lia|]. split; [lia|].
          by replace (endBlock + 1) with (i + batchSize) by lia. }
        rewrite Hl, Hc, He. cbn. by rewrite <- app_assoc. }
  destruct (Hgen (Z.to_nat (toBlockID - fromBlockID + 1)) fromBlockID
              {| indexbuilder.explorer := e; indexbuilder.calls := [];
                 indexbuilder.logged := [] |} Hlo ltac:(lia))
    as (r' & ranges & Hrun & Ht & Hl & Hc & He).
  exists r'. split; [done|]. split; [done|]. split; [done|]. by exists ranges.
Qed.

(** X24: a batch size of zero.  When the batch size is zero, the range is
    not empty and the service answers without error, the loop over the
    batches never advances: whatever the number of turns it is given, the
    tool has not returned. *)
Theorem main_batch_size_zero (fuel : nat) e :
  batchSize = 0 →
  - 2 ^ 63 ≤ fromBlockID ≤ toBlockID → toBlockID ≤ indexbuilder.maxInt64 →
  (∀ e' a b, (BuildIndexByRange e' a b).1.2 = None) →
  main fuel e = None.
Proof.
  intros Hb Hfrom Hto Hok. unfold indexbuilder.main.
  generalize ({| indexbuilder.explorer := e; indexbuilder.calls := [];
                 indexbuilder.logged := [] |}).
  induction fuel as [|fuel IH]; intros r; cbn [indexbuilder.batchLoop];
    rewrite (proj2 (Z.leb_le _ _)) by lia; [done|].
  assert (Hretry : ∀ a b, ∃ r', retryLoop (Z.to_nat retryLimit) 0 a b r = Some (false, r')).
  { intros a b. destruct (Z.to_nat retryLimit) as [|n] eqn:Hn; cbn [indexbuilder.retryLoop].
    - rewrite (proj2 (Z.ltb_ge _ _)) by lia. by eexists.
    - rewrite (proj2 (Z.ltb_lt _ _)) by lia.
      specialize (Hok (indexbuilder.explorer r) a b).
      destruct (BuildIndexByRange _ a b) as [[fb err] e']. cbn in Hok. subst err.
      by eexists. }
  match goal with |- context [retryLoop _ 0 ?a ?b r] => destruct (Hretry a b) as [r' ->] end.
  rewrite (addInt64_small fromBlockID batchSize)
    by (unfold indexbuilder.maxInt64 in *; lia).
  replace (fromBlockID + batchSize) with fromBlockID by lia. apply IH.
Qed.

Lemma attempts_length e (startBlock endBlock : Z) (n : nat) :
  length (attempts e startBlock endBlock n) = n.
Proof.
  revert e startBlock. induction n as [|n IH]; intros e startBlock; cbn; [done|].
  destruct (BuildIndexByRange e startBlock endBlock) as [[fb err] e']. cbn. by rewrite IH.
Qed.

Lemma attempts_ends e (startBlock endBlock : Z) (n : nat) :
  Forall (λ range : Z * Z, range.2 = endBlock) (attempts e startBlock endBlock n).*1.
Proof.
  revert e startBlock. induction n as [|n IH]; intros e startBlock; cbn;
    [apply Forall_nil_2|].
  destruct (BuildIndexByRange e startBlock endBlock) as [[fb err] e']. cbn.
  apply Forall_cons_2; [done|apply IH].
Qed.

(** The inner loop against a service that fails every call. *)
Lemma retryLoop_fails (endBlock : Z) :
  (∀ e' a b, is_Some (BuildIndexByRange e' a b).1.2) →
  ∀ (fuel : nat) (retry startBlock : Z) r,
    0 ≤ retry < retryLimit →
    (Z.to_nat (retryLimit - retry) ≤ fuel)%nat →
    ∃ r' failedBlock err,
      retryLoop fuel retry startBlock endBlock r = Some (true, r')
      ∧ indexbuilder.calls r'
        = indexbuilder.calls r
          ++ (attempts (indexbuilder.explorer r) startBlock endBlock
                (Z.to_nat (retryLimit - retry))).*1
      ∧ snd <$> last (attempts (indexbuilder.explorer r) startBlock endBlock
                        (Z.to_nat (retryLimit - retry)))
        = Some (failedBlock, Some err)
      ∧ indexbuilder.logged r'
        = indexbuilder.logged r ++ [indexbuilder.Fatal failedBlock err].
Proof.
  intros Hfail. induction fuel as [|fuel IH]; intros retry startBlock r Hretry Hfuel; [lia|].
  cbn [indexbuilder.retryLoop]. rewrite (proj2 (Z.ltb_lt _ _)) by lia.
  replace (Z.to_nat (retryLimit - retry))
    with (S (Z.to_nat (retryLimit - (retry + 1)))) by lia.
  cbn [indexbuilder.attempts].
  specialize (Hfail (indexbuilder.explorer r) startBlock endBlock) as Hf.
  destruct (BuildIndexByRange _ startBlock endBlock) as [[fb err] e'].
  cbn in Hf. destruct Hf as [err' ->].
  destruct (retry + 1 =? retryLimit) eqn:Hlast;
    [apply Z.eqb_eq in Hlast|apply Z.eqb_neq in Hlast].
  - replace (Z.to_nat (retryLimit - (retry + 1))) with 0%nat by lia.
    eexists _, fb, err'. split; [reflexivity|]. by cbn.
  - set (r1 := {| indexbuilder.explorer := e' |}).
    destruct (IH (retry + 1) fb r1) as (r' & fb' & err'' & Hrun & Hc & Hl & Hlog);
      [lia|lia|].
    cbn [indexbuilder.explorer r1] in Hc, Hl.
    exists r', fb', err''. split; [done|].
    split; [by rewrite Hc; cbn; rewrite <- app_assoc|].
    split; [|done].
    rewrite last_cons. by destruct (last _).
Qed.

(** X25: a service that keeps failing.  When every call fails, the range
    is not empty and the retry limit is positive, the tool gives up on the
    first batch: it has asked the service exactly [retryLimit] times, the
    first time from the first block of the batch and every other time from
    the block that the service reported as failed in its answer before,
    every time up to the end of the batch; the fatal error, which names the
    block and the error of the last answer, is all that it has logged, and
    no batch is reported finished. *)
Theorem main_gives_up (fuel : nat) e :
  (∀ e' a b, is_Some (BuildIndexByRange e' a b).1.2) →
  1 ≤ retryLimit →
  fromBlockID ≤ toBlockID →
  ∃ r endBlock failedBlock err,
    main (S fuel) e = Some r
    ∧ endBlock ≤ toBlockID
    ∧ indexbuilder.calls r
      = (attempts e fromBlockID endBlock (Z.to_nat retryLimit)).*1
    ∧ length (indexbuilder.calls r) = Z.to_nat retryLimit
    ∧ Forall (λ range, range.2 = endBlock) (indexbuilder.calls r)
    ∧ snd <$> last (attempts e fromBlockID endBlock (Z.to_nat retryLimit))
      = Some (failedBlock, Some err)
    ∧ indexbuilder.logged r = [indexbuilder.Fatal failedBlock err].
Proof.
  intros Hfail Hr Hfrom. unfold indexbuilder.main. cbn [indexbuilder.batchLoop].
  rewrite (proj2 (Z.leb_le _ _)) by lia.
  match goal with |- context [retryLoop _ 0 _ ?b _] => set (endBlock := b) end.
  assert (Hend : endBlock ≤ toBlockID).
  { subst endBlock. destruct (Z.ltb_spec toBlockID
      (indexbuilder.addInt64 (indexbuilder.addInt64 fromBlockID batchSize) (-1))); lia. }
  destruct (retryLoop_fails endBlock Hfail (Z.to_nat retryLimit) 0 fromBlockID
              {| indexbuilder.explorer := e; indexbuilder.calls := [];
                 indexbuilder.logged := [] |})
    as (r' & fb & err & Hrun & Hc & Hl & Hlog); [lia|lia|].
  rewrite Hrun. exists r', endBlock, fb, err. cbn in Hc, Hl, Hlog.
  rewrite Z.sub_0_r in Hc, Hl.
  split; [done|]. split; [done|]. split; [done|].
  split; [by rewrite Hc, length_fmap, attempts_length|].
  split; [rewrite Hc; apply attempts_ends|]. done.
Qed.

End indexbuilder_facts.

(** * The theorems at the concrete node *)

(** C2 at work. *)
Lemma stale_timeout_dropped_witness :
  ∃ m', Start_step (Cr := testCrypto) (Co := testCollab) mStale = Some (Some m')
    ∧ fsm_cur m' = fsm_cur mStale
    ∧ round (ctx m') = round (ctx mStale) ∧ epoch (ctx m') = epoch (ctx mStale)
    ∧ ctx m' = ctx mStale
    ∧ evtq m' = [] ∧ delayed m' = delayed mStale
    ∧ sent m' = sent mStale ∧ commits m' = commits mStale
    ∧ actPoolResets m' = actPoolResets mStale
    ∧ logs m' = logs mStale ++ [(Debug, "timeoutEvt is stale")].
Proof.
  apply (stale_timeout_dropped (Cr := testCrypto) (Co := testCollab) mStale
           (testEvt eProposeBlockTimeout 500) []).
  - by left.
  - reflexivity.
  - cbn. lia.
Defined.




(** C10 at work. *)
Lemma rejected_proposal_erases_block_witness :
  rc_block (round (ctx mStoring)) = Some blockA
  ∧ (∃ m', handleEvt (Cr := testCrypto) (Co := testCollab)
             (ProposeBlkEvt (testEvt eProposeBlock 2000) (Some blockLate)) mStoring
           = Some (tt, m')
       ∧ fsm_cur m' = sAcceptPropose
       ∧ rc_block (round (ctx m')) = None).
Proof.
  split; [reflexivity|].
  apply (rejected_proposal_erases_block (Cr := testCrypto) (Co := testCollab)
           mStoring (testEvt eProposeBlock 2000) blockLate).
  - reflexivity.
  - reflexivity.
  - intros (p & _ & Hh & _). cbn in Hh. lia.
Defined.




(** C9 at work: the endorsement for height 77 is tallied in the round of
    height 5 and completes the quorum of four. *)
Lemma commit_endorse_height_unchecked_witness :
  ∃ st m', handleEndorseCommitEvt (Co := testCollab)
             (EndorseEvt (testEvt eEndorseCommit 2000) strayCommit) mThreeNo
           = Some ((st, None), m')
    ∧ rc_commitEndorses (round (ctx m')) !! ZeroHash32B
      = Some (<["C" := false]> threeNo)
    ∧ st = sRoundStart.
Proof.
  destruct (commit_endorse_height_unchecked (Cr := testCrypto) (Co := testCollab)
              mThreeNo (testEvt eEndorseCommit 2000) strayCommit) as [Hcommit _].
  { cbn. lia. }
  destruct (Hcommit eq_refl eq_refl) as (st & m' & Hrun & Htally & Hst).
  exists st, m'. split; [exact Hrun|]. split; [exact Htally|].
  rewrite Hst. by vm_compute.
Defined.

(** The same turn seen from the worker: the quorum of [no] ends the round
    with a dummy block handed to the chain. *)
Example stray_commit_ends_round :
  option_map (λ r, (fsm_cur r.2, evtq r.2, length (commits r.2)))
    (handleEvt (Cr := testCrypto) (Co := testCollab)
       (EndorseEvt (testEvt eEndorseCommit 2000) strayCommit) mThreeNo)
  = Some (sRoundStart, [finishEpochEvt mThreeNo], 1%nat).
Proof. by vm_compute. Qed.

(** C5 at work: the node is in epoch 2, which begins at height 5; of the
    blocks 1 to 4 the first, third and fourth bear DKG material, and the
    degree is 1. *)
Lemma updateSeed_spec_witness :
  updateSeed (Co := testCollab) 4 (testFSM sEpochStart nodeB true)
  = Some ([Byte.x01; Byte.x01], None).
Proof.
  destruct (updateSeed_spec (Co := testCollab) (testFSM sEpochStart nodeB true) 2 5 eq_refl)
    as [_ Hscan].
  destruct (Hscan ltac:(lia) ltac:(lia)) as [_ Hrun].
  destruct (Hrun 4%nat ltac:(vm_compute; lia)) as (seed & err & -> & _ & Hagg).
  specialize (Hagg ltac:(vm_compute; discriminate)).
  vm_compute in Hagg. destruct Hagg as [-> ->]. reflexivity.
Defined.

(** ** The further properties at the concrete node *)

Lemma key1_nonzero : key1 ≠ ZeroPrivateKey.
Proof. intros Heq. apply (f_equal (λ v, v !!! 0%fin)) in Heq. discriminate Heq. Qed.

(** X1 at work: the timeout of the proposal. *)
Lemma handlers_return_declared_witness :
  ∃ dst err m',
    handleProposeBlockTimeout
      (TimeoutEvt (testEvt eProposeBlockTimeout 2000)) (testFSM sAcceptPropose nodeB true)
    = Some ((dst, err), m')
    ∧ fsm_cur m' = sAcceptPropose
    ∧ grows (testFSM sAcceptPropose nodeB true) m'
    ∧ (err = None → dst ∈ [sAcceptProposalEndorse]).
Proof.
  eexists _, _, _. split; [reflexivity|].
  apply (handlers_return_declared (Cr := testCrypto) (Co := testCollab)
           sAcceptPropose eProposeBlockTimeout handleProposeBlockTimeout
           [sAcceptProposalEndorse] (TimeoutEvt (testEvt eProposeBlockTimeout 2000))
           (testFSM sAcceptPropose nodeB true)).
  - reflexivity.
  - discriminate.
  - reflexivity.
Defined.

(** X4 at work: from [sRoundStart] into [sAcceptCommitEndorse]. *)
Lemma backdoor_moves_anywhere_witness :
  bind (newBackdoorEvt sAcceptCommitEndorse) (handleEvt (Cr := testCrypto) (Co := testCollab))
    (testFSM sRoundStart nodeB true)
  = Some (tt, addLogs [(Debug, "consensusEvt state transition happens")]
                (testFSM sAcceptCommitEndorse nodeB true)).
Proof.
  apply (backdoor_moves_anywhere (Cr := testCrypto) (Co := testCollab)
           sAcceptCommitEndorse (testFSM sRoundStart nodeB true)).
  cbn. unfold consensusStates. rewrite !elem_of_cons. tauto.
Defined.



(** X7 at work: a commit timeout of time 4000 after the round has started
    anew at time 5000 s. *)
Lemma new_round_drops_old_timeouts_witness :
  ∃ m', handleEvt (Cr := testCrypto) (Co := testCollab) (CEvt (testEvt eStartRound 2000))
          (testFSM sRoundStart nodeB true) = Some (tt, m')
    ∧ handleEvt (Cr := testCrypto) (Co := testCollab)
        (TimeoutEvt (testEvt eEndorseCommitTimeout 4000)) m'
      = Some (tt, addLogs [(Debug, "timeoutEvt is stale")] m')
    ∧ notStale (timeoutEvtAt eProposeBlockTimeout (testFSM sRoundStart nodeB true)) m'.
Proof.
  apply (new_round_drops_old_timeouts (Cr := testCrypto) (Co := testCollab)
           (testFSM sRoundStart nodeB true) (CEvt (testEvt eStartRound 2000)) "A" 5
           (testEvt eEndorseCommitTimeout 4000));
    first [reflexivity | exact I | cbn; lia].
Defined.




(** X11 at work: the commit endorsement of C with and without its
    signature. *)
Lemma endorse_tallied_unverified_witness :
  handleEvt (Cr := testCrypto) (Co := testCollab)
    (EndorseEvt (testEvt eEndorseCommit 2000) (testEndorse endorseCommit 5 "C" true))
    (testFSM sAcceptCommitEndorse nodeB true)
  = handleEvt (Cr := testCrypto) (Co := testCollab)
      (EndorseEvt (testEvt eEndorseCommit 2000)
         (unsigned (testEndorse endorseCommit 5 "C" true)))
      (testFSM sAcceptCommitEndorse nodeB true).
Proof.
  apply (endorse_tallied_unverified (Cr := testCrypto) (Co := testCollab)
           (testFSM sAcceptCommitEndorse nodeB true) (testEvt eEndorseCommit 2000)
           (testEndorse endorseCommit 5 "C" true)).
  eexists. reflexivity.
Defined.



(** X14 at work: the handler of [InitBlock] fails on node B. *)
Lemma handler_error_schedules_nothing_witness :
  sInvalid = sInvalid
  ∧ still (testFSM sInitPropose nodeB true) (testFSM sInitPropose nodeB true).
Proof.
  apply (handler_error_schedules_nothing (Cr := testCrypto) (Co := testCollab)
           sInitPropose eInitBlock (handleInitBlockEvt (Co := testCollab)) [sAcceptPropose]
           (CEvt (testEvt eInitBlock 2000)) (testFSM sInitPropose nodeB true) sInvalid
           (errors_Wrap (errors_New "no actions") "error when minting a block")
           (testFSM sInitPropose nodeB true)).
  - reflexivity.
  - discriminate.
  - reflexivity.
Defined.


(** X16 at work: node B signs, and its signature verifies. *)
Lemma Sign_then_VerifySignature_witness :
  ∃ en', Sign (Cr := testCrypto) (testEndorse endorseCommit 5 "" true) nodeB
         = Some (en', None)
    ∧ sameVote en' (testEndorse endorseCommit 5 "" true)
    ∧ en_endorser en' = "B"
    ∧ VerifySignature (Cr := testCrypto) en' ZeroPublicKey = Some true.
Proof.
  apply (Sign_then_VerifySignature (Cr := testCrypto)
           (testEndorse endorseCommit 5 "" true) nodeB).
  - exact key1_nonzero.
  - reflexivity.
  - intros msg. reflexivity.
Defined.

(** X18 at work: the endorsement of topic 7 and of a hash of two bytes. *)
Lemma received_endorse_as_it_comes_witness :
  ∃ en,
    newEndorseEvtWithEndorsePb wirePb
      (testFSM sAcceptProposalEndorse nodeB true)
    = Some (Ok (EndorseEvt (testEvt eEndorseProposal (5000 * second)) en),
            testFSM sAcceptProposalEndorse nodeB true)
    ∧ en_topic en = endorseProposal
    ∧ vec_to_list (en_blkHash en) = [Byte.x0a; Byte.x0b] ++ replicate 30 Byte.x00
    ∧ en_signature en = [].
Proof.
  destruct (received_endorse_as_it_comes wirePb
              ZeroPublicKey (testFSM sAcceptProposalEndorse nodeB true))
    as (en & Hrun & Ht & Hh & _ & _ & _ & _ & Hs).
  - by vm_compute.
  - exists en. split; [exact Hrun|]. split; [exact Ht|]. split; [exact Hh|exact Hs].
Defined.

(** X20 at work: a full node under the scheme Roll-DPoS. *)
Lemma New_rejection_cause_witness :
  testNew (testRoot config.FullNodeType) []
  = Err (errors_Wrap
           (errors_Wrap ErrInvalidCfg "consensus scheme of fullnode should be NOOP")
           "failed to validate config")
  ∧ errors_Cause
      (errors_Wrap
         (errors_Wrap ErrInvalidCfg "consensus scheme of fullnode should be NOOP")
         "failed to validate config")
    = ErrInvalidCfg.
Proof.
  split; [reflexivity|].
  apply (New_rejection_cause (Cr := testCrypto) testDecodePrivateKey testDecodePublicKey
           (Ok tt) (λ _, Ok (testRoot config.FullNodeType)) tt
           (testRoot config.FullNodeType) key1 ZeroPublicKey);
    reflexivity.
Defined.

(** X21 at work: the same configuration passes [DoNotValidate]. *)
Lemma New_custom_validates_witness :
  testNew (testRoot config.FullNodeType) [config.DoNotValidate]
  = Ok (testRoot config.FullNodeType).
Proof.
  destruct (New_custom_validates (Cr := testCrypto) testDecodePrivateKey testDecodePublicKey
              (Ok tt) (λ _, Ok (testRoot config.FullNodeType)) [config.DoNotValidate] tt
              (testRoot config.FullNodeType))
    as [Hpass _]; [discriminate|reflexivity|reflexivity|].
  apply Hpass. by apply Forall_cons_2.
Defined.

(** X22 at work: the blocks 1 to 10 in batches of 4. *)
Lemma main_tiles_the_range_witness :
  ∃ r, indexbuilder.main goodService 1 10 4 3 10 0%nat = Some r
    ∧ indexbuilder.calls r = [(1, 4); (5, 8); (9, 10)]
    ∧ indexbuilder.logged r
      = [indexbuilder.Finished 1 4; indexbuilder.Finished 5 8; indexbuilder.Finished 9 10].
Proof.
  destruct (main_tiles_the_range goodService 1 10 4 3 0%nat)
    as (r & Hrun & _ & Hl); [lia|lia|lia|by vm_compute|done|].
  exists r. split; [exact Hrun|].
  revert Hrun Hl. vm_compute. intros [= <-]. by split.
Defined.

(** X23 at work: the same range with a retry limit of zero. *)
Lemma main_retry_limit_zero_witness :
  ∃ r, indexbuilder.main goodService 1 10 4 0 10 0%nat = Some r
    ∧ indexbuilder.calls r = []
    ∧ indexbuilder.explorer r = 0%nat
    ∧ indexbuilder.logged r
      = [indexbuilder.Finished 1 4; indexbuilder.Finished 5 8; indexbuilder.Finished 9 10].
Proof.
  destruct (main_retry_limit_zero goodService 1 10 4 0 0%nat)
    as (r & Hrun & Hc & He & _); [lia|lia|lia|by vm_compute|].
  exists r. split; [exact Hrun|]. split; [exact Hc|]. split; [exact He|].
  revert Hrun. vm_compute. by intros [= <-].
Defined.

(** X24 at work: a batch size of zero, after a thousand turns. *)
Lemma main_batch_size_zero_witness :
  indexbuilder.main goodService 1 10 0 3 1000 0%nat = None.
Proof.
  apply (main_batch_size_zero goodService 1 10 0 3 1000 0%nat);
    first [reflexivity | done | lia | by vm_compute].
Defined.

(** X25 at work: three attempts at the first batch, each from the block
    that the one before failed on. *)
Lemma main_gives_up_witness :
  ∃ r, indexbuilder.main slowService 1 10 4 3 1 0%nat = Some r
    ∧ indexbuilder.calls r = [(1, 4); (2, 4); (3, 4)]
    ∧ indexbuilder.logged r = [indexbuilder.Fatal 4 (errors_New "index not built")].
Proof.
  destruct (main_gives_up slowService 1 10 4 3 0%nat 0%nat)
    as (r & endBlock & fb & err & Hrun & _); [by eexists|lia|lia|].
  exists r. split; [exact Hrun|].
  revert Hrun. vm_compute. by intros [= <-].
Defined.
